(** * OPP-HAND: particle engine, shape generator and gesture classifier

    A shallow embedding of the computational core of the repository:

    - [types.ts]                       the enums and records,
    - [utils/shapes.ts]                [MAX_PARTICLES], [getPointOnSphereSurface],
                                       [generateShapePositions],
    - [services/handTracking.ts]       [HandTracker.detectGesture], [onResults],
    - [components/ParticleCanvas.tsx]  the shape effect, the mount effect and
                                       the per-frame loop of [animate].

    The source computes with JavaScript numbers (IEEE 754 binary64) and keeps
    its buffers in [Float32Array]s (binary32 storage).  The code is embedded
    once, over an interface [Number] of the arithmetic operators it uses, and
    the interface is instantiated twice:

    - [ieee]  : binary64 arithmetic of the Standard Library's [SpecFloat], with
                signed zeros, infinities and NaN, and binary32 rounding on every
                typed-array store.  This is what a JavaScript engine computes.
    - [exact] : the real numbers, without rounding.  Statements in this
                instance are about the formulas the code evaluates; the
                rounded values of [ieee] can depart from them, and where
                they were found to, the statement is made in [ieee].

    Statements that hold by the shape of the code alone are proved for every
    instance of the interface. *)

From Stdlib Require Import ZArith Reals Lra Psatz Lia List Bool SpecFloat.
From stdpp Require Import base list.

Set Default Proof Using "Type".

(** ** types.ts *)

Inductive ShapeType := Sphere | Cube | Heart | Spiral.

Module HandGesture.
Inductive t := None | Open | Fist.

Definition eqb (a b : t) : bool :=
  match a, b with
  | None, None | Open, Open | Fist, Fist => true
  | _, _ => false
  end.
End HandGesture.

Record ParticleSettings (num : Type) := mkSettings {
  particleCount : nat;
  forceStrength : num;
  interactionRadius : num;
  damping : num;
  returnSpeed : num
}.
Arguments mkSettings {num}.
Arguments particleCount {num}.
Arguments forceStrength {num}.
Arguments interactionRadius {num}.
Arguments damping {num}.
Arguments returnSpeed {num}.

Module HandData.
Record t (num : Type) := mk {
  x : num;
  y : num;
  gesture : HandGesture.t;
  detected : bool
}.
Arguments mk {num}.
Arguments x {num}.
Arguments y {num}.
Arguments gesture {num}.
Arguments detected {num}.
End HandData.

(** ** JavaScript numbers

    The operators of the source, as an interface.  [fround] is the rounding a
    [Float32Array] applies when an element is stored; [undef] is the number an
    out-of-range typed-array read turns into once it enters arithmetic. *)

Class Number (num : Type) := {
  ofZ    : Z -> num;
  nadd   : num -> num -> num;
  nsub   : num -> num -> num;
  nmul   : num -> num -> num;
  ndiv   : num -> num -> num;
  nneg   : num -> num;
  Math_sqrt : num -> num;
  nlt    : num -> num -> bool;
  neq    : num -> num -> bool;
  fround : num -> num;
  undef  : num
}.

(** The functions of [Math] that the shape generator and the camera mapping
    call.  The exponent of [Math.pow] is an integer literal at its only call
    site. *)

Class Libm (num : Type) := {
  Math_PI   : num;
  Math_cos  : num -> num;
  Math_sin  : num -> num;
  Math_acos : num -> num;
  Math_tan  : num -> num;
  Math_pow  : num -> nat -> num
}.

Declare Scope js_scope.
Delimit Scope js_scope with js.
Notation "a + b" := (nadd a b) : js_scope.
Notation "a - b" := (nsub a b) : js_scope.
Notation "a * b" := (nmul a b) : js_scope.
Notation "a / b" := (ndiv a b) : js_scope.
Notation "- a" := (nneg a) : js_scope.
Notation "a <? b" := (nlt a b) : js_scope.
Notation "a === b" := (neq a b) (at level 70, no associativity) : js_scope.
Notation "# z" := (ofZ z%Z) (at level 1, format "# z") : js_scope.

(** A decimal literal [m/d], [d] a power of ten: [lit 5 10] is [0.5].  Both
    instances below give the literal the value JavaScript gives it: the
    quotient of two exactly represented integers, rounded once. *)
Definition lit {num} `{Number num} (m d : Z) : num := (#m / #d)%js.

(** *** The IEEE instance *)

Module Ieee.
Definition prec := 53%Z.
Definition emax := 1024%Z.

Definition of_Z (z : Z) : spec_float := binary_normalize prec emax z 0 false.

(** Round a double to the nearest single and read it back as a double. *)
Definition to_single (x : spec_float) : spec_float :=
  match x with
  | S754_finite s m e => binary_round 24 128 s m e
  | _ => x
  end.

Definition of_single (x : spec_float) : spec_float :=
  match x with
  | S754_finite s m e => binary_round prec emax s m e
  | _ => x
  end.

Definition fround (x : spec_float) : spec_float := of_single (to_single x).

Definition is_finite (x : spec_float) : bool :=
  match x with
  | S754_zero _ | S754_finite _ _ _ => true
  | S754_infinity _ | S754_nan => false
  end.

Definition is_nan (x : spec_float) : bool :=
  match x with
  | S754_nan => true
  | _ => false
  end.
End Ieee.

#[export] Instance ieee : Number spec_float := {
  ofZ := Ieee.of_Z;
  nadd := SFadd Ieee.prec Ieee.emax;
  nsub := SFsub Ieee.prec Ieee.emax;
  nmul := SFmul Ieee.prec Ieee.emax;
  ndiv := SFdiv Ieee.prec Ieee.emax;
  nneg := SFopp;
  Math_sqrt := SFsqrt Ieee.prec Ieee.emax;
  nlt := SFltb;
  neq := SFeqb;
  fround := Ieee.fround;
  undef := S754_nan
}.

(** *** The exact instance *)

Module Exact.
Definition ltb (a b : R) : bool := if Rlt_dec a b then true else false.
Definition eqb (a b : R) : bool := if Req_dec_T a b then true else false.
End Exact.

#[export] Instance exact : Number R := {
  ofZ := IZR;
  nadd := Rplus;
  nsub := Rminus;
  nmul := Rmult;
  ndiv := Rdiv;
  nneg := Ropp;
  Math_sqrt := R_sqrt.sqrt;
  nlt := Exact.ltb;
  neq := Exact.eqb;
  fround := fun r => r;
  undef := 0%R
}.

#[export] Instance exact_libm : Libm R := {
  Math_PI := PI;
  Math_cos := cos;
  Math_sin := sin;
  Math_acos := acos;
  Math_tan := tan;
  Math_pow := pow
}.

(** ** Typed arrays *)

(** A [Float32Array] is the list of its elements. *)
Abbreviation Float32Array := (list _) (only parsing).

Section TypedArray.
Context {num : Type} `{Number num}.

(** [new Float32Array(n)] *)
Definition newFloat32Array (n : nat) : list num := replicate n (#0)%js.

(** [a[i]] as a number *)
Definition get (a : list num) (i : nat) : num := default undef (a !! i).

(** [a[i] = v]: rounded to single precision; ignored out of range. *)
Definition put (a : list num) (i : nat) (v : num) : list num :=
  <[i := fround v]> a.

(** [dst.set(src)]: copies [src] over the front of [dst]; a [RangeError]
    when [src] is longer. *)
Definition set_from (dst src : list num) : option (list num) :=
  if decide (length src <= length dst)
  then Some (src ++ drop (length src) dst)
  else None.
End TypedArray.

(** ** utils/shapes.ts *)

Definition MAX_PARTICLES : nat := Z.to_nat 40000.

(** The object literal [{ x, y, z }] returned by the point samplers. *)
Module Point.
Record t (num : Type) := mk { x : num; y : num; z : num }.
Arguments mk {num}.
Arguments x {num}.
Arguments y {num}.
Arguments z {num}.
End Point.

Section Shapes.
Context {num : Type} `{Number num} `{Libm num}.

(** [Math.random] is a stream of draws; the state threaded through the
    generator is the number of draws made so far. *)
Variable rng : nat -> num.

Definition random (k : nat) : num * nat := (rng k, S k).

Local Open Scope js_scope.

Definition getPointOnSphereSurface (r : num) (k : nat) : Point.t num * nat :=
  let '(u, k) := random k in
  let '(v, k) := random k in
  let theta := #2 * Math_PI * u in
  let phi := Math_acos (#2 * v - #1) in
  (Point.mk (r * Math_sin phi * Math_cos theta)
          (r * Math_sin phi * Math_sin theta)
          (r * Math_cos phi), k).

(** The body of the first loop of [generateShapePositions], up to the
    stores: the point of index [i], and the draws it consumes. *)
Definition shapePoint (type : ShapeType) (count : nat) (i : nat) (k : nat)
  : Point.t num * nat :=
  let i' := #(Z.of_nat i) in
  let count' := #(Z.of_nat count) in
  match type with
  | Sphere =>
      let '(p, k) := getPointOnSphereSurface #25 k in
      (Point.mk (Point.x p) (Point.y p) (Point.z p), k)
  | Cube =>
      let size := #35 in
      let '(r1, k) := random k in
      let x := (r1 - lit 5 10) * size in
      let '(r2, k) := random k in
      let y := (r2 - lit 5 10) * size in
      let '(r3, k) := random k in
      let z := (r3 - lit 5 10) * size in
      (Point.mk x y z, k)
  | Heart =>
      let '(r0, k) := random k in
      let t := r0 * Math_PI * #2 in
      let scale := lit 12 10 in
      let '(r, k) := random k in
      let vol := Math_sqrt r in
      let x := scale * #16 * Math_pow (Math_sin t) 3 * vol in
      let y := scale * (#13 * Math_cos t - #5 * Math_cos (#2 * t)
                        - #2 * Math_cos (#3 * t) - Math_cos (#4 * t)) * vol in
      let '(r3, k) := random k in
      let z := (r3 - lit 5 10) * #10 * vol in
      let y := y + #5 in
      (Point.mk x y z, k)
  | Spiral =>
      let angle := i' * lit 1 10 in
      let radius := i' * lit 5 1000 in
      let height := (i' / count') * #60 - #30 in
      let arm := #(Z.of_nat (i mod 3)) in
      let spin := i' * lit 2 1000 in
      let r := #2 + (i' / count') * #30 in
      let x := r * Math_cos (spin + arm * (Math_PI * #2 / #3)) in
      let '(r1, k) := random k in
      let y := (r1 - lit 5 10) * #10 in
      let z := r * Math_sin (spin + arm * (Math_PI * #2 / #3)) in
      let x := #20 * Math_cos (i' * lit 5 100) in
      let z := #20 * Math_sin (i' * lit 5 100) in
      let y := (i' / count') * #60 - #30 in
      (Point.mk x y z, k)
  end.

(** One iteration of the first loop: compute the point, store it. *)
Definition fillPoint (type : ShapeType) (count : nat)
    (st : Float32Array * nat) (i : nat) : Float32Array * nat :=
  let '(positions, k) := st in
  let idx := (i * 3)%nat in
  let '(p, k) := shapePoint type count i k in
  let positions := put positions idx (Point.x p) in
  let positions := put positions (idx + 1)%nat (Point.y p) in
  let positions := put positions (idx + 2)%nat (Point.z p) in
  (positions, k).

(** One iteration of the second loop: the hidden point. *)
Definition fillSentinel (positions : Float32Array) (i : nat) : Float32Array :=
  let positions := put positions (i * 3)%nat #9999 in
  let positions := put positions (i * 3 + 1)%nat #9999 in
  let positions := put positions (i * 3 + 2)%nat #9999 in
  positions.

(** [generateShapePositions(type, count)], started with [k] draws made; it
    returns the buffer and the number of draws made when it ends. *)
Definition generateShapePositionsFrom (type : ShapeType) (count : nat) (k : nat)
  : Float32Array * nat :=
  let positions := newFloat32Array (MAX_PARTICLES * 3)%nat in
  let '(positions, k) :=
    foldl (fillPoint type count) (positions, k) (seq 0 count) in
  let positions :=
    foldl fillSentinel positions (seq count (MAX_PARTICLES - count)%nat) in
  (positions, k).

Definition generateShapePositions (type : ShapeType) (count : nat) : Float32Array :=
  fst (generateShapePositionsFrom type count 0).
End Shapes.

(** ** services/handTracking.ts *)

(** One element of [results.multiHandLandmarks[0]]. *)
Module Landmark.
Record t (num : Type) := mk { x : num; y : num }.
Arguments mk {num}.
Arguments x {num}.
Arguments y {num}.
End Landmark.

Section HandTracker.
Context {num : Type} `{Number num}.
Local Open Scope js_scope.

Definition fingers : list nat := [8; 12; 16; 20]%nat.

(** The body of [for (const tipIdx of fingers)]. *)
Definition countFolded (wrist : Landmark.t num) (refDistSq : num)
    (tip : Landmark.t num) (foldedCount : nat) : nat :=
  let dx := Landmark.x tip - Landmark.x wrist in
  let dy := Landmark.y tip - Landmark.y wrist in
  let distSq := dx * dx + dy * dy in
  if distSq <? refDistSq * lit 15 10 then S foldedCount else foldedCount.

(** [detectGesture(landmarks)].  Reading a field of a missing landmark
    throws; the result is then [None]. *)
Definition detectGesture (landmarks : list (Landmark.t num))
  : option HandGesture.t :=
  wrist ← landmarks !! 0%nat;
  l0 ← landmarks !! 0%nat;
  l9 ← landmarks !! 9%nat;
  let refDx := Landmark.x l0 - Landmark.x l9 in
  let refDy := Landmark.y l0 - Landmark.y l9 in
  let refDistSq := refDx * refDx + refDy * refDy in
  foldedCount ←
    foldl (fun acc tipIdx =>
             c ← acc;
             tip ← landmarks !! tipIdx;
             Some (countFolded wrist refDistSq tip c))
          (Some 0%nat) fingers;
  if (3 <=? foldedCount)%nat then Some HandGesture.Fist
  else Some HandGesture.Open.

(** [onResults(results)]: the value handed to [onHandUpdate].
    [multiHandLandmarks] is absent or a list of hands. *)
Definition onResults (multiHandLandmarks : option (list (list (Landmark.t num))))
  : option (HandData.t num) :=
  match multiHandLandmarks with
  | Some (landmarks :: _) =>
      gesture ← detectGesture landmarks;
      l0 ← landmarks !! 0%nat;
      l9 ← landmarks !! 9%nat;
      let palmX := (Landmark.x l0 + Landmark.x l9) / #2 in
      let palmY := (Landmark.y l0 + Landmark.y l9) / #2 in
      Some (HandData.mk (#1 - palmX) palmY gesture true)
  | _ => Some (HandData.mk (lit 5 10) (lit 5 10) HandGesture.None false)
  end.
End HandTracker.

(** ** components/ParticleCanvas.tsx *)

(** The two fields of the [THREE.PerspectiveCamera] that [animate] reads. *)
Record Camera (num : Type) := mkCamera { fov : num; aspect : num }.
Arguments mkCamera {num}.
Arguments fov {num}.
Arguments aspect {num}.

(** The mutable state behind the refs of the component: the position
    attribute of [geometryRef.current] (absent until the mount effect has
    run), [velocitiesRef.current] and [targetPositionsRef.current]. *)
Record Canvas (num : Type) := mkCanvas {
  geometry : option (list num);
  velocities : list num;
  targetPositions : list num
}.
Arguments mkCanvas {num}.
Arguments geometry {num}.
Arguments velocities {num}.
Arguments targetPositions {num}.

Section ParticleCanvas.
Context {num : Type} `{Number num}.
Local Open Scope js_scope.

(** Lines 161-191: the velocity after the hand interaction. *)
Definition handInteraction (currentHand : HandData.t num)
    (forceStrength interactionRadius : num)
    (handX handY handZ : num) (px py pz : num) (vx vy vz : num)
  : num * num * num :=
  if HandData.detected currentHand then
    let dx := px - handX in
    let dy := py - handY in
    let dz := pz - handZ in
    let distSq := dx * dx + dy * dy + dz * dz in
    if distSq <? interactionRadius * interactionRadius then
      let dist := Math_sqrt distSq in
      let nx := dx / dist in
      let ny := dy / dist in
      let nz := dz / dist in
      let factor := #1 - dist / interactionRadius in
      if HandGesture.eqb (HandData.gesture currentHand) HandGesture.Open then
        let force := forceStrength * factor * #2 in
        (vx + nx * force, vy + ny * force, vz + nz * force)
      else if HandGesture.eqb (HandData.gesture currentHand) HandGesture.Fist then
        let force := - forceStrength * factor * #3 in
        (vx + nx * force, vy + ny * force, vz + nz * force)
      else (vx, vy, vz)
    else (vx, vy, vz)
  else (vx, vy, vz).

(** Lines 143-206 without the loads and stores: from the position, target
    and velocity of one particle to its new position and velocity, both as
    computed in double precision before they are stored. *)
Definition particleStep (currentSettings : ParticleSettings num)
    (currentHand : HandData.t num) (handX handY handZ : num)
    (p t v : Point.t num) : Point.t num * Point.t num :=
  let damp := damping currentSettings in
  let returnSpeed := returnSpeed currentSettings in
  let forceStrength := forceStrength currentSettings in
  let interactionRadius := interactionRadius currentSettings in
  let px := Point.x p in
  let py := Point.y p in
  let pz := Point.z p in
  let tx := Point.x t in
  let ty := Point.y t in
  let tz := Point.z t in
  let vx := Point.x v in
  let vy := Point.y v in
  let vz := Point.z v in
  let vx := vx + (tx - px) * returnSpeed in
  let vy := vy + (ty - py) * returnSpeed in
  let vz := vz + (tz - pz) * returnSpeed in
  let '(vx, vy, vz) :=
    handInteraction currentHand forceStrength interactionRadius
                    handX handY handZ px py pz vx vy vz in
  let vx := vx * damp in
  let vy := vy * damp in
  let vz := vz * damp in
  (Point.mk (px + vx) (py + vy) (pz + vz), Point.mk vx vy vz).

(** The three consecutive elements of particle [i]. *)
Definition load (a : Float32Array) (i : nat) : Point.t num :=
  let i3 := (i * 3)%nat in
  Point.mk (get a i3) (get a (i3 + 1)%nat) (get a (i3 + 2)%nat).

Definition store (a : Float32Array) (i : nat) (p : Point.t num) : Float32Array :=
  let i3 := (i * 3)%nat in
  let a := put a i3 (Point.x p) in
  let a := put a (i3 + 1)%nat (Point.y p) in
  let a := put a (i3 + 2)%nat (Point.z p) in
  a.

(** The body of [for (let i = 0; i < activeCount; i++)] on the pair of the
    position and the velocity buffer. *)
Definition stepParticle (currentSettings : ParticleSettings num)
    (currentHand : HandData.t num) (handX handY handZ : num)
    (targets : Float32Array)
    (st : Float32Array * Float32Array) (i : nat)
  : Float32Array * Float32Array :=
  let '(positions, velocities) := st in
  let '(p', v') :=
    particleStep currentSettings currentHand handX handY handZ
                 (load positions i) (load targets i) (load velocities i) in
  (store positions i p', store velocities i v').

(** Lines 123-207 of [animate], from the extents [width] and [height] of
    the view at depth 0. *)
Definition simulate (width height : num)
    (currentSettings : ParticleSettings num) (currentHand : HandData.t num)
    (targets : Float32Array) (st : Float32Array * Float32Array)
  : Float32Array * Float32Array :=
  let activeCount := particleCount currentSettings in
  let handX := (HandData.x currentHand - lit 5 10) * width in
  let handY := - (HandData.y currentHand - lit 5 10) * height in
  let handZ := #0 in
  foldl (stepParticle currentSettings currentHand handX handY handZ targets)
        st (seq 0 activeCount).

(** [animate], one frame.  [THREE.MathUtils.degToRad] multiplies by
    [Math.PI / 180]. *)
Definition animate `{Libm num} (camera : Camera num)
    (currentSettings : ParticleSettings num) (currentHand : HandData.t num)
    (c : Canvas num) : Canvas num :=
  match geometry c with
  | Some positions =>
      let vFOV := fov camera * (Math_PI / #180) in
      let height := #2 * Math_tan (vFOV / #2) * #60 in
      let width := height * aspect camera in
      let '(positions, velocities) :=
        simulate width height currentSettings currentHand
                 (targetPositions c) (positions, velocities c) in
      mkCanvas (Some positions) velocities (targetPositions c)
  | None => c
  end.

(** The shape effect (lines 46-59), run when [shape] changes; [k] is the
    number of random draws made so far. *)
Definition shapeEffect `{Libm num} (rng : nat -> num) (shape : ShapeType)
    (c : Canvas num) (k : nat) : option (Canvas num) * nat :=
  let '(newTargets, k) := generateShapePositionsFrom rng shape MAX_PARTICLES k in
  match geometry c with
  | Some positions =>
      if (get positions 0 === #0) && (get positions 1 === #0)
         && (get positions 2 === #0)
      then (positions ← set_from positions newTargets;
            Some (mkCanvas (Some positions) (velocities c) newTargets), k)
      else (Some (mkCanvas (Some positions) (velocities c) newTargets), k)
  | None => (Some (mkCanvas None (velocities c) newTargets), k)
  end.

(** The buffers of a component that has rendered but not yet mounted. *)
Definition initialCanvas : Canvas num :=
  mkCanvas None (newFloat32Array (MAX_PARTICLES * 3)%nat)
                (newFloat32Array (MAX_PARTICLES * 3)%nat).

(** The mount effect (lines 61-112), as far as the buffers go. *)
Definition mountEffect `{Libm num} (rng : nat -> num) (shape : ShapeType)
    (c : Canvas num) (k : nat) : option (Canvas num) * nat :=
  let positions := newFloat32Array (MAX_PARTICLES * 3)%nat in
  let '(initialTargets, k) := generateShapePositionsFrom rng shape MAX_PARTICLES k in
  (positions ← set_from positions initialTargets;
   Some (mkCanvas (Some positions) (velocities c) initialTargets), k).
End ParticleCanvas.

(** * Specification-side definitions *)

(** ** Slots of a buffer *)

Section BufferSpec.
Context {num : Type} `{Number num}.

(** What is stored is what was computed, rounded to single precision. *)
Definition roundPoint (p : Point.t num) : Point.t num :=
  Point.mk (fround (Point.x p)) (fround (Point.y p)) (fround (Point.z p)).

(** A loop that stores the point [pt i] in slot [i], for [i] from [start]
    on, [n] times. *)
Definition storeAll (pt : nat -> Point.t num) (a : list num) (start n : nat)
  : list num :=
  foldl (fun a i => store a i (pt i)) a (seq start n).

End BufferSpec.

(** ** The per-frame loop *)

Section LoopSpec.
Context {num : Type} `{Number num}.
Variable currentSettings : ParticleSettings num.
Variable currentHand : HandData.t num.
Variables handX handY handZ : num.
Variable targets : list num.

(** The first [n] iterations of the loop. *)
Definition loop (n : nat) (st : list num * list num) : list num * list num :=
  foldl (stepParticle currentSettings currentHand handX handY handZ targets)
        st (seq 0 n).

(** What iteration [i] computes from the buffers it finds. *)
Definition slotStep (positions velocities : list num) (i : nat)
  : Point.t num * Point.t num :=
  particleStep currentSettings currentHand handX handY handZ
               (load positions i) (load targets i) (load velocities i).

End LoopSpec.

(** ** The simulator *)

Section SimulatorSpec.
Context {num : Type} `{Number num}.
Local Open Scope js_scope.

(** The hand point in world coordinates, at depth 0. *)
Definition handPoint (width height : num) (currentHand : HandData.t num)
  : Point.t num :=
  Point.mk ((HandData.x currentHand - lit 5 10) * width)%js
           (- (HandData.y currentHand - lit 5 10) * height)%js
           (ofZ 0).

Definition vadd (a b : Point.t num) : Point.t num :=
  Point.mk (Point.x a + Point.x b) (Point.y a + Point.y b) (Point.z a + Point.z b).

Definition vsub (a b : Point.t num) : Point.t num :=
  Point.mk (Point.x a - Point.x b) (Point.y a - Point.y b) (Point.z a - Point.z b).

(** [a] with every component multiplied by [s] on the right *)
Definition vscale (a : Point.t num) (s : num) : Point.t num :=
  Point.mk (Point.x a * s) (Point.y a * s) (Point.z a * s).

Definition squaredDistance (a b : Point.t num) : num :=
  let d := vsub a b in
  Point.x d * Point.x d + Point.y d * Point.y d + Point.z d * Point.z d.

(** The hand force on a particle at [p], the hand point being [h]: absent
    when no hand is detected, when the particle is not within the radius or
    when the gesture is neither Open nor Fist; otherwise the direction from
    the hand point to the particle, divided by the distance [d], times
    [forceStrength * (1 - d / interactionRadius) * 2] for Open (away from
    the hand), and times the negated strength with multiplier 3 for Fist
    (toward the hand). *)
Definition handForce (cfg : ParticleSettings num) (hand : HandData.t num)
    (h p : Point.t num) : option (Point.t num) :=
  if HandData.detected hand then
    if squaredDistance p h <? interactionRadius cfg * interactionRadius cfg then
      let d := Math_sqrt (squaredDistance p h) in
      let n := Point.mk (Point.x (vsub p h) / d) (Point.y (vsub p h) / d)
                        (Point.z (vsub p h) / d) in
      let factor := #1 - d / interactionRadius cfg in
      match HandData.gesture hand with
      | HandGesture.Open => Some (vscale n (forceStrength cfg * factor * #2))
      | HandGesture.Fist => Some (vscale n (- forceStrength cfg * factor * #3))
      | HandGesture.None => None
      end
    else None
  else None.

Definition accumulate (v : Point.t num) (f : option (Point.t num)) : Point.t num :=
  match f with
  | Some f => vadd v f
  | None => v
  end.

(** v' = damping . (v + (target - position) . returnSpeed + F_hand) *)
Definition steppedVelocity (cfg : ParticleSettings num) (hand : HandData.t num)
    (h p t v : Point.t num) : Point.t num :=
  vscale (accumulate (vadd v (vscale (vsub t p) (returnSpeed cfg)))
                     (handForce cfg hand h p))
         (damping cfg).

(** A hand that exerts no force: none detected, or no gesture. *)
Definition inert (hand : HandData.t num) : bool :=
  negb (HandData.detected hand)
  || HandGesture.eqb (HandData.gesture hand) HandGesture.None.

(** One frame of input to the simulator. *)
Record Frame := mkFrame {
  frameWidth : num;
  frameHeight : num;
  frameSettings : ParticleSettings num;
  frameHand : HandData.t num;
  frameTargets : list num
}.

Definition runFrame (st : list num * list num) (f : Frame) : list num * list num :=
  simulate (frameWidth f) (frameHeight f) (frameSettings f) (frameHand f)
           (frameTargets f) st.

Definition runFrames (frames : list Frame) (st : list num * list num)
  : list num * list num :=
  foldl runFrame st frames.
End SimulatorSpec.

(** ** Convergence *)

Section ConvergenceSpec.
Context {num : Type} `{Number num}.
Local Open Scope js_scope.

(** The sum over the active particles of the squared distance between
    position and target. *)
Definition aggregateSqDist (positions targets : list num) (n : nat) : num :=
  foldr (fun i acc => squaredDistance (load positions i) (load targets i) + acc)
        #0 (seq 0 n).

(** [k] successive frames with the same inputs. *)
Definition repeatFrame (w h : num) (cfg : ParticleSettings num)
    (hand : HandData.t num) (targets : list num) (k : nat)
    (st : list num * list num) : list num * list num :=
  Nat.iter k (simulate w h cfg hand targets) st.
End ConvergenceSpec.

Section OverdampedSpec.
Local Open Scope R_scope.
Variable mu : R.
Variable cfg : ParticleSettings R.
Variable targets : list R.

(** The error [e] = position - target and the velocity [v] of one
    coordinate are settled when the velocity points toward the target and is
    at most [mu] times the error. *)
Definition settled (e v : R) : Prop :=
  (0 <= e /\ - (mu * e) <= v <= 0) \/ (e <= 0 /\ 0 <= v <= - (mu * e)).

Definition settledPoint (p t v : Point.t R) : Prop :=
  settled (Point.x p - Point.x t) (Point.x v) /\
  settled (Point.y p - Point.y t) (Point.y v) /\
  settled (Point.z p - Point.z t) (Point.z v).

Definition settledState (st : list R * list R) : Prop :=
  forall i, (i < particleCount cfg)%nat ->
    settledPoint (load (fst st) i) (load targets i) (load (snd st) i).

Definition slotSqDist (st : list R * list R) (i : nat) : R :=
  squaredDistance (load (fst st) i) (load targets i).

Definition total (f : nat -> R) (l : list nat) : R :=
  foldr (fun i acc => f i + acc) 0 l.

End OverdampedSpec.

(** ** The gesture classifier *)

Section GestureSpec.
Context {num : Type} `{Number num}.
Local Open Scope js_scope.

(** Squared distance from landmark [a] to landmark [b]. *)
Definition landmarkSqDist (a b : Landmark.t num) : num :=
  (Landmark.x a - Landmark.x b) * (Landmark.x a - Landmark.x b)
  + (Landmark.y a - Landmark.y b) * (Landmark.y a - Landmark.y b).

(** A fingertip is folded when its squared distance to the wrist is less
    than 1.5 times the squared distance between wrist and middle-finger base. *)
Definition folded (wrist base tip : Landmark.t num) : bool :=
  landmarkSqDist tip wrist <? landmarkSqDist wrist base * lit 15 10.

(** Fist when at least 3 of the given fingertips are folded, Open otherwise. *)
Definition classify (wrist base : Landmark.t num) (tips : list (Landmark.t num))
  : HandGesture.t :=
  if (3 <=? length (List.filter (folded wrist base) tips))%nat
  then HandGesture.Fist else HandGesture.Open.

End GestureSpec.

(** ** The shape generator *)

Section GeneratorSpec.
Context {num : Type} `{Number num} `{Libm num}.
Variable rng : nat -> num.
Local Open Scope js_scope.

(** Calls of [Math.random] per generated point. *)
Definition draws (type : ShapeType) : nat :=
  match type with
  | Sphere => 2
  | Cube => 3
  | Heart => 3
  | Spiral => 1
  end.

(** The point of slot [i] when generation starts after [k0] draws. *)
Definition pointAt (type : ShapeType) (count k0 i : nat) : Point.t num :=
  fst (shapePoint rng type count i (k0 + i * draws type)).

(** The hidden point of the unused slots. *)
Definition sentinel : Point.t num := Point.mk (ofZ 9999) (ofZ 9999) (ofZ 9999).

(** The single helix: x = 20 cos(0.05 i), y = (i / count) 60 - 30,
    z = 20 sin(0.05 i). *)
Definition helixPoint (count i : nat) : Point.t num :=
  Point.mk (#20 * Math_cos (#(Z.of_nat i) * lit 5 100))
           ((#(Z.of_nat i) / #(Z.of_nat count)) * #60 - #30)
           (#20 * Math_sin (#(Z.of_nat i) * lit 5 100)).

Definition coordinate (p : Point.t num) (axis : nat) : num :=
  match axis with
  | 0%nat => Point.x p
  | 1%nat => Point.y p
  | _ => Point.z p
  end.

(** The reference implementation: element [k] of the buffer is coordinate
    [k mod 3] of the point of slot [k / 3], the helix point below [count]
    and the hidden point from [count] on; no random draw is made. *)
Definition helixReference (count : nat) : list num :=
  (fun k : nat =>
     fround (coordinate (if (k / 3 <? count)%nat
                         then helixPoint count (k / 3)
                         else sentinel) (k mod 3)))
  <$> seq 0 (MAX_PARTICLES * 3)%nat.

(** A slot holds the hidden point when all three coordinates equal 9999. *)
Definition isSentinel (p : Point.t num) : bool :=
  (Point.x p === #9999) && (Point.y p === #9999) && (Point.z p === #9999).

Definition sentinelCount (buf : list num) : nat :=
  length (List.filter (fun i => isSentinel (load buf i)) (seq 0 MAX_PARTICLES)).

Definition nonSentinelCount (buf : list num) : nat :=
  length (List.filter (fun i => negb (isSentinel (load buf i)))
                      (seq 0 MAX_PARTICLES)).

(** The test of the shape effect: the first point is 0, 0, 0. *)
Definition firstPointIsZero (positions : list num) : bool :=
  (get positions 0 === #0) && (get positions 1 === #0)
  && (get positions 2 === #0).

End GeneratorSpec.

(** ** IEEE arithmetic *)

Module IeeeSpec.

Definition is_zero (x : spec_float) : bool :=
  match x with
  | S754_zero _ => true
  | _ => false
  end.

Definition nanPoint : Point.t spec_float := Point.mk S754_nan S754_nan S754_nan.

(** All three coordinates are a zero of either sign. *)
Definition at_origin (p : Point.t spec_float) : bool :=
  is_zero (Point.x p) && is_zero (Point.y p) && is_zero (Point.z p).

End IeeeSpec.

(** ** Concrete frames in IEEE arithmetic *)

Module Demo.
Local Open Scope js_scope.

(** The settings [App] starts with, for [count] particles. *)
Definition settings (count : nat) : ParticleSettings spec_float :=
  mkSettings count (lit 25 10) #25 (lit 96 100) (lit 4 100).

(** A palm at the centre of the picture. *)
Definition centred (g : HandGesture.t) : HandData.t spec_float :=
  HandData.mk (lit 5 10) (lit 5 10) g true.

(** What [onResults] reports when no hand is seen. *)
Definition noHand : HandData.t spec_float :=
  HandData.mk (lit 5 10) (lit 5 10) HandGesture.None false.

Definition width : spec_float := #160.
Definition height : spec_float := #92.

Definition twoTargets : list spec_float := [#5; #5; #5; #1; #2; #3].
Definition twoPositions : list spec_float := [#1; #2; #2; #4; #0; #3].
Definition twoVelocities : list spec_float := [#0; #0; #0; #1; #0; #0].

Definition frame (count : nat) (g : HandGesture.t) : Frame :=
  mkFrame width height (settings count) (centred g) twoTargets.
End Demo.

Definition fistLandmarks : list (Landmark.t spec_float) :=
  replicate 9 (Landmark.mk (lit 5 10) (lit 5 10))
  ++ [Landmark.mk (lit 5 10) (lit 3 10)]
  ++ replicate 11 (Landmark.mk (lit 5 10) (lit 5 10)).

(** A flat hand in exact arithmetic: palm from (0.5, 0.5) to (0.5, 0.3),
    fingertips at (0.5, 0.1). *)
Definition openLandmarks : list (Landmark.t R) :=
  replicate 8 (Landmark.mk (1 / 2) (1 / 2))%R
  ++ [Landmark.mk (1 / 2) (1 / 10); Landmark.mk (1 / 2) (3 / 10)]%R
  ++ replicate 11 (Landmark.mk (1 / 2) (1 / 10))%R.

(** ** Further specification-side definitions *)

Section FurtherSpec.
Context {num : Type} `{Number num}.
Local Open Scope js_scope.

(** What [onResults] reports when no hand is seen. *)
Definition neutralHand : HandData.t num :=
  HandData.mk (lit 5 10) (lit 5 10) HandGesture.None false.

(** The extents of the view at depth 0, as [animate] computes them from
    the camera (lines 129-132). *)
Definition viewHeight `{Libm num} (camera : Camera num) : num :=
  #2 * Math_tan (fov camera * (Math_PI / #180) / #2) * #60.

Definition viewWidth `{Libm num} (camera : Camera num) : num :=
  viewHeight camera * aspect camera.

(** The settings [cfg] with another particle count. *)
Definition withCount (cfg : ParticleSettings num) (n : nat) : ParticleSettings num :=
  mkSettings n (forceStrength cfg) (interactionRadius cfg) (damping cfg)
             (returnSpeed cfg).
End FurtherSpec.

(** Two random sources agree on the draws [k0 <= k < k0 + n]. *)
Definition sameDraws {num : Type} (rng rng' : nat -> num) (k0 n : nat) : Prop :=
  forall k, k0 <= k < k0 + n -> rng k = rng' k.

(** ** The shapes as the specification words them *)

Section ReferenceShapes.
Context {num : Type} `{Number num} `{Libm num}.
Variable rng : nat -> num.
Local Open Scope js_scope.

(** Sphere: theta = 2 pi u, phi = acos (2 v - 1), radius 25, spherical to
    Cartesian. *)
Definition spherePoint (u v : num) : Point.t num :=
  let theta := #2 * Math_PI * u in
  let phi := Math_acos (#2 * v - #1) in
  Point.mk (#25 * Math_sin phi * Math_cos theta)
           (#25 * Math_sin phi * Math_sin theta)
           (#25 * Math_cos phi).

(** Cube: each coordinate uniform in a side of length 35 about 0. *)
Definition cubePoint (u v w : num) : Point.t num :=
  Point.mk ((u - lit 5 10) * #35) ((v - lit 5 10) * #35) ((w - lit 5 10) * #35).

(** Heart: the curve x = 16 sin^3 t, y = 13 cos t - 5 cos 2t - 2 cos 3t
    - cos 4t at t = 2 pi u, scaled by 1.2 and by the volume factor sqrt r,
    a jitter of up to 5 either way on z scaled by the same factor, and y
    shifted up by 5. *)
Definition heartPoint (u r j : num) : Point.t num :=
  let t := u * Math_PI * #2 in
  let vol := Math_sqrt r in
  Point.mk (lit 12 10 * #16 * Math_pow (Math_sin t) 3 * vol)
           (lit 12 10 * (#13 * Math_cos t - #5 * Math_cos (#2 * t)
                         - #2 * Math_cos (#3 * t) - Math_cos (#4 * t)) * vol
            + #5)
           ((j - lit 5 10) * #10 * vol).

(** The point of slot [i]: each shape's formula at the draws of that slot
    (generation started after [k0] draws); the helix uses no draw. *)
Definition referencePoint (type : ShapeType) (count k0 i : nat) : Point.t num :=
  match type with
  | Sphere => spherePoint (rng (k0 + i * 2)%nat) (rng (k0 + i * 2 + 1)%nat)
  | Cube => cubePoint (rng (k0 + i * 3)%nat) (rng (k0 + i * 3 + 1)%nat)
                      (rng (k0 + i * 3 + 2)%nat)
  | Heart => heartPoint (rng (k0 + i * 3)%nat) (rng (k0 + i * 3 + 1)%nat)
                        (rng (k0 + i * 3 + 2)%nat)
  | Spiral => helixPoint count i
  end.
End ReferenceShapes.

(** ** Magnitudes in IEEE arithmetic *)

(** [below k x]: [x] is not a finite number of magnitude [2 ^ k] or more.
    Zeros, infinities and NaN pass. *)
Definition below (k : Z) (x : spec_float) : bool :=
  match x with
  | S754_finite _ m e => (Zpos (digits2_pos m) + e <=? k)%Z
  | _ => true
  end.

(** A stand-in for the host's [Math] library, to evaluate the generator:
    a constant cosine and sine, [Math.pow] by repeated multiplication. *)
Definition flatMath : Libm spec_float := {|
  Math_PI := S754_finite false 7074237752028440 (-51);
  Math_cos := fun _ => ofZ 1;
  Math_sin := fun _ => ofZ 0;
  Math_acos := fun _ => ofZ 0;
  Math_tan := fun _ => ofZ 0;
  Math_pow := fun x n => Nat.iter n (fun y => nmul y x) (ofZ 1)
|}.

(** ** A particle on the hand point *)

(** The particle's position compares equal ([===]) to the hand point on
    every axis. *)
Definition onHandPoint {num : Type} `{Number num} (p hp : Point.t num) : bool :=
  ((Point.x p === Point.x hp) && (Point.y p === Point.y hp)
   && (Point.z p === Point.z hp))%js.

Definition finitePoint (p : Point.t spec_float) : bool :=
  Ieee.is_finite (Point.x p) && Ieee.is_finite (Point.y p)
  && Ieee.is_finite (Point.z p).

(** The settings of a slow return: damping 0.96, returnSpeed 0.0004. *)
Definition slowSettings : ParticleSettings spec_float :=
  mkSettings 1 (lit 25 10) (ofZ 25) (lit 96 100) (lit 4 10000).

(** * Properties *)

(** ** Typed-array loads and stores *)

Section TypedArrayFacts.
Context {num : Type} `{Number num}.

Lemma length_put (a : list num) i v : length (put a i v) = length a.
Proof. unfold put. by rewrite length_insert. Qed.

Lemma lookup_put_ne (a : list num) i j v : i <> j -> put a i v !! j = a !! j.
Proof. intros Hij. unfold put. by rewrite list_lookup_insert_ne. Qed.

Lemma lookup_put_eq (a : list num) i v :
  i < length a -> put a i v !! i = Some (fround v).
Proof. intros Hi. unfold put. by rewrite list_lookup_insert_eq. Qed.

Lemma get_put_ne (a : list num) i j v : i <> j -> get (put a i v) j = get a j.
Proof. intros Hij. unfold get. by rewrite lookup_put_ne. Qed.

Lemma get_put_eq (a : list num) i v :
  i < length a -> get (put a i v) i = fround v.
Proof. intros Hi. unfold get. by rewrite lookup_put_eq. Qed.

Lemma get_lookup (a : list num) i v : a !! i = Some v -> get a i = v.
Proof. intros E. unfold get. by rewrite E. Qed.

Lemma lookup_newFloat32Array n i :
  i < n -> newFloat32Array n !! i = Some (ofZ 0).
Proof. intros Hi. unfold newFloat32Array. by apply lookup_replicate_2. Qed.

Lemma length_newFloat32Array n : length (newFloat32Array (num:=num) n) = n.
Proof. unfold newFloat32Array. by rewrite length_replicate. Qed.

(** A store of a whole array over an array of the same length replaces it. *)
Lemma set_from_same_length (dst src : list num) :
  length src = length dst -> set_from dst src = Some src.
Proof.
  intros E. unfold set_from. destruct (decide _) as [_|Hn]; [|lia].
  rewrite E, drop_all. by rewrite app_nil_r.
Qed.

Lemma length_store (a : list num) i p : length (store a i p) = length a.
Proof. unfold store. by rewrite !length_put. Qed.

Lemma lookup_store_other (a : list num) i p k :
  k < i * 3 \/ i * 3 + 3 <= k -> store a i p !! k = a !! k.
Proof.
  intros Hk. unfold store. rewrite !lookup_put_ne by lia. done.
Qed.

Lemma load_ext (a b : list num) i :
  (forall k, i * 3 <= k < i * 3 + 3 -> a !! k = b !! k) -> load a i = load b i.
Proof.
  intros E. unfold load, get. rewrite !E by lia. done.
Qed.

Lemma load_store_ne (a : list num) i j p : i <> j -> load (store a i p) j = load a j.
Proof.
  intros Hij. apply load_ext. intros k Hk. apply lookup_store_other. lia.
Qed.

Lemma load_store_eq (a : list num) i p :
  i * 3 + 2 < length a -> load (store a i p) i = roundPoint p.
Proof.
  intros Hi. unfold load, store, roundPoint. f_equal.
  - rewrite !get_put_ne by lia. apply get_put_eq. lia.
  - rewrite get_put_ne by lia. apply get_put_eq. rewrite length_put. lia.
  - apply get_put_eq. rewrite !length_put. lia.
Qed.
End TypedArrayFacts.

(** ** The per-frame loop, slot by slot *)

Section LoopFacts.
Context {num : Type} `{Number num}.
Variable currentSettings : ParticleSettings num.
Variable currentHand : HandData.t num.
Variables handX handY handZ : num.
Variable targets : list num.

Lemma loop_succ n st :
  loop currentSettings currentHand handX handY handZ targets (S n) st =
  stepParticle currentSettings currentHand handX handY handZ targets (loop currentSettings currentHand handX handY handZ targets n st) n.
Proof. unfold loop. rewrite seq_S, foldl_app. done. Qed.

Lemma stepParticle_eq positions velocities i :
  stepParticle currentSettings currentHand handX handY handZ targets
               (positions, velocities) i =
  (store positions i (fst (slotStep currentSettings currentHand handX handY handZ targets positions velocities i)),
   store velocities i (snd (slotStep currentSettings currentHand handX handY handZ targets positions velocities i))).
Proof. unfold stepParticle, slotStep. by destruct (particleStep _ _ _ _ _ _ _ _). Qed.

Lemma loop_length n st :
  length (fst (loop currentSettings currentHand handX handY handZ targets n st)) = length (fst st) /\
  length (snd (loop currentSettings currentHand handX handY handZ targets n st)) = length (snd st).
Proof.
  induction n as [|n [IHp IHv]]; [done|].
  rewrite loop_succ. destruct (loop currentSettings currentHand handX handY handZ targets n st) as [ps vs].
  rewrite stepParticle_eq. simpl in *. by rewrite !length_store.
Qed.

(** Iterations below [n] leave every element from [3n] on alone. *)
Lemma loop_frame n st k :
  n * 3 <= k ->
  fst (loop currentSettings currentHand handX handY handZ targets n st) !! k = fst st !! k /\ snd (loop currentSettings currentHand handX handY handZ targets n st) !! k = snd st !! k.
Proof.
  induction n as [|n IH]; [done|]. intros Hk.
  destruct IH as [IHp IHv]; [lia|].
  rewrite loop_succ. destruct (loop currentSettings currentHand handX handY handZ targets n st) as [ps vs].
  rewrite stepParticle_eq. simpl in *.
  rewrite !lookup_store_other by lia. done.
Qed.

Lemma loop_load_frame n st i :
  n <= i ->
  load (fst (loop currentSettings currentHand handX handY handZ targets n st)) i = load (fst st) i /\
  load (snd (loop currentSettings currentHand handX handY handZ targets n st)) i = load (snd st) i.
Proof.
  intros Hi. split; apply load_ext; intros k Hk;
    apply (loop_frame n st k); lia.
Qed.

(** Slot [i < n] holds, after the loop, the rounded result of its own
    iteration on the values it had before the loop. *)
Lemma loop_slot n st i :
  i < n ->
  i * 3 + 2 < length (fst st) -> i * 3 + 2 < length (snd st) ->
  load (fst (loop currentSettings currentHand handX handY handZ targets n st)) i = roundPoint (fst (slotStep currentSettings currentHand handX handY handZ targets (fst st) (snd st) i)) /\
  load (snd (loop currentSettings currentHand handX handY handZ targets n st)) i = roundPoint (snd (slotStep currentSettings currentHand handX handY handZ targets (fst st) (snd st) i)).
Proof.
  intros Hi Hp Hv. induction n as [|n IH]; [lia|].
  rewrite loop_succ.
  destruct (loop_length n st) as [Lp Lv].
  destruct (loop_load_frame n st n) as [Fp Fv]; [lia|].
  destruct (loop currentSettings currentHand handX handY handZ targets n st) as [ps vs] eqn:E.
  rewrite stepParticle_eq. simpl in *.
  destruct (decide (i = n)) as [->|Hne].
  - rewrite !load_store_eq by lia.
    unfold slotStep. rewrite Fp, Fv. done.
  - rewrite !load_store_ne by lia. apply IH. lia.
Qed.
End LoopFacts.

Section SimulateFacts.
Context {num : Type} `{Number num}.

Lemma simulate_loop width height cfg hand targets st :
  simulate width height cfg hand targets st =
  loop cfg hand (Point.x (handPoint width height hand))
       (Point.y (handPoint width height hand))
       (Point.z (handPoint width height hand)) targets (particleCount cfg) st.
Proof. done. Qed.

Lemma simulate_length width height cfg hand targets st :
  length (fst (simulate width height cfg hand targets st)) = length (fst st) /\
  length (snd (simulate width height cfg hand targets st)) = length (snd st).
Proof. rewrite simulate_loop. apply loop_length. Qed.

Lemma simulate_frame width height cfg hand targets st k :
  particleCount cfg * 3 <= k ->
  fst (simulate width height cfg hand targets st) !! k = fst st !! k /\
  snd (simulate width height cfg hand targets st) !! k = snd st !! k.
Proof. rewrite simulate_loop. apply loop_frame. Qed.
End SimulateFacts.

(** A frame of [animate] is [simulate] at the view extents of the camera. *)
Lemma animate_simulate {num : Type} `{Number num} `{Libm num}
    (camera : Camera num) (cfg : ParticleSettings num) (hand : HandData.t num)
    (positions vels targets : list num) :
  let height := (ofZ 2 * Math_tan (fov camera * (Math_PI / ofZ 180) / ofZ 2)
                 * ofZ 60)%js in
  let width := (height * aspect camera)%js in
  animate camera cfg hand (mkCanvas (Some positions) vels targets)
  = mkCanvas
      (Some (fst (simulate width height cfg hand targets (positions, vels))))
      (snd (simulate width height cfg hand targets (positions, vels)))
      targets.
Proof.
  intros height width. unfold animate. cbn [geometry velocities targetPositions].
  fold height. fold width.
  by destruct (simulate width height cfg hand targets (positions, vels)).
Qed.

(** ** The integrator *)

Lemma foldl_pointwise {A B} (f g : A -> B -> A) (l : list B) (a : A) :
  (forall a b, f a b = g a b) -> foldl f a l = foldl g a l.
Proof.
  intros E. revert a. induction l as [|b l IH]; intros a; [done|].
  cbn [foldl]. rewrite E. apply IH.
Qed.

Section SimulatorFacts.
Context {num : Type} `{Number num}.

Lemma particleStep_steppedVelocity cfg hand (h p t v : Point.t num) :
  particleStep cfg hand (Point.x h) (Point.y h) (Point.z h) p t v =
  (vadd p (steppedVelocity cfg hand h p t v), steppedVelocity cfg hand h p t v).
Proof.
  unfold particleStep, handInteraction, steppedVelocity, handForce,
    squaredDistance.
  destruct p as [px py pz], t as [tx ty tz], v as [vx vy vz], h as [hx hy hz].
  cbn [Point.x Point.y Point.z vsub vadd vscale].
  destruct (HandData.detected hand); [|done].
  destruct (nlt _ _); [|done].
  destruct (HandData.gesture hand); done.
Qed.

Lemma handInteraction_inert (hand : HandData.t num) fs r hx hy hz px py pz vx vy vz :
  inert hand = true ->
  handInteraction hand fs r hx hy hz px py pz vx vy vz = (vx, vy, vz).
Proof.
  unfold inert, handInteraction. intros Hi.
  destruct (HandData.detected hand); [|done].
  destruct (HandData.gesture hand); try discriminate Hi.
  by destruct (nlt _ _).
Qed.

(** With an inert hand, neither the hand nor the view extents matter. *)
Lemma simulate_inert w h w' h' cfg (hand hand' : HandData.t num) targets st :
  inert hand = true -> inert hand' = true ->
  simulate w h cfg hand targets st = simulate w' h' cfg hand' targets st.
Proof.
  intros Hi Hi'. unfold simulate.
  apply foldl_pointwise. intros [ps vs] i. unfold stepParticle, particleStep.
  rewrite !handInteraction_inert by done. done.
Qed.

Lemma runFrames_length (frames : list Frame) st :
  length (fst (runFrames frames st)) = length (fst st) /\
  length (snd (runFrames frames st)) = length (snd st).
Proof.
  revert st. induction frames as [|f frames IH]; intros st; [done|].
  cbn [runFrames foldl]. fold (runFrames frames (runFrame st f)).
  destruct (IH (runFrame st f)) as [-> ->]. apply simulate_length.
Qed.

Lemma runFrames_frame n (frames : list Frame) st k :
  Forall (fun f => particleCount (frameSettings f) <= n) frames ->
  n * 3 <= k ->
  fst (runFrames frames st) !! k = fst st !! k /\
  snd (runFrames frames st) !! k = snd st !! k.
Proof.
  intros Hall Hk. revert st.
  induction Hall as [|f frames Hf _ IH]; intros st; [done|].
  cbn [runFrames foldl]. fold (runFrames frames (runFrame st f)).
  destruct (IH (runFrame st f)) as [-> ->].
  apply simulate_frame. lia.
Qed.
End SimulatorFacts.

(** The loop facts at the level of [simulate]: slot [i] after one frame. *)
Lemma step_formula_aux {num : Type} `{Number num}
    (w h : num) (cfg : ParticleSettings num) (hand : HandData.t num)
    (targets positions velocities : list num) (i : nat) :
  i < particleCount cfg ->
  i * 3 + 2 < length positions ->
  i * 3 + 2 < length velocities ->
  load (snd (simulate w h cfg hand targets (positions, velocities))) i =
    roundPoint (steppedVelocity cfg hand (handPoint w h hand)
                  (load positions i) (load targets i) (load velocities i)) /\
  load (fst (simulate w h cfg hand targets (positions, velocities))) i =
    roundPoint (vadd (load positions i)
                  (steppedVelocity cfg hand (handPoint w h hand)
                     (load positions i) (load targets i) (load velocities i))).
Proof.
  intros Hi Hp Hv.
  rewrite simulate_loop.
  destruct (loop_slot cfg hand (Point.x (handPoint w h hand))
              (Point.y (handPoint w h hand)) (Point.z (handPoint w h hand))
              targets (particleCount cfg) (positions, velocities) i Hi Hp Hv)
    as [Ep Ev].
  rewrite Ep, Ev. unfold slotStep. cbn [fst snd].
  rewrite particleStep_steppedVelocity. done.
Qed.

(** For every active particle [i < activeCount], one frame leaves in
    the velocity buffer v' = (v + (target - position) * returnSpeed
    + F_hand) * damping, and in the position buffer position + v' (explicit
    Euler, unit time step), each component rounded to single precision by
    the store.  F_hand is [handForce]: no term when no hand is detected;
    inside the interaction radius the direction from the hand point to the
    particle scaled by forceStrength * (1 - d / interactionRadius) * 2 for
    Open (repelling) and by the negated strength with multiplier 3 for Fist
    (attracting).  Damping multiplies the velocity after both force terms
    were added. *)
Theorem step_formula {num : Type} `{Number num}
    (w h : num) (cfg : ParticleSettings num) (hand : HandData.t num)
    (targets positions velocities : list num) (i : nat) :
  i < particleCount cfg ->
  i * 3 + 2 < length positions ->
  i * 3 + 2 < length velocities ->
  let st' := simulate w h cfg hand targets (positions, velocities) in
  let v' := steppedVelocity cfg hand (handPoint w h hand)
              (load positions i) (load targets i) (load velocities i) in
  load (snd st') i = roundPoint v' /\
  load (fst st') i = roundPoint (vadd (load positions i) v').
Proof.
  intros Hi Hp Hv st' v'. subst st' v'.
  rewrite simulate_loop.
  set (hp := handPoint w h hand).
  destruct (loop_slot cfg hand (Point.x hp) (Point.y hp) (Point.z hp)
              targets (particleCount cfg) (positions, velocities) i Hi Hp Hv)
    as [Ep Ev].
  rewrite Ep, Ev. unfold slotStep. cbn [fst snd].
  rewrite particleStep_steppedVelocity. split; reflexivity.
Qed.

(** C8.  Whatever the settings and the hand of each frame, frames whose
    active count is at most [n] leave every position and velocity element of
    the slots [>= n] as it was; a later frame with a larger count updates
    such a slot from exactly those frozen values. *)
Theorem active_count_freeze {num : Type} `{Number num}
    (n : nat) (frames : list Frame) (resume : Frame)
    (st : list num * list num) (i : nat) :
  Forall (fun f => particleCount (frameSettings f) <= n) frames ->
  (forall k, n * 3 <= k ->
     fst (runFrames frames st) !! k = fst st !! k /\
     snd (runFrames frames st) !! k = snd st !! k) /\
  (n <= i < particleCount (frameSettings resume) ->
   i * 3 + 2 < length (fst st) -> i * 3 + 2 < length (snd st) ->
   let st' := runFrame (runFrames frames st) resume in
   let v' := steppedVelocity (frameSettings resume) (frameHand resume)
               (handPoint (frameWidth resume) (frameHeight resume) (frameHand resume))
               (load (fst st) i) (load (frameTargets resume) i) (load (snd st) i) in
   load (snd st') i = roundPoint v' /\
   load (fst st') i = roundPoint (vadd (load (fst st) i) v')).
Proof.
  intros Hall. split.
  - intros k Hk. by apply (runFrames_frame n).
  - intros Hi Hp Hv st' v'.
    destruct (runFrames_length frames st) as [Lp Lv].
    assert (load (fst (runFrames frames st)) i = load (fst st) i) as Fp.
    { apply load_ext. intros k Hk. apply (runFrames_frame n); [done|lia]. }
    assert (load (snd (runFrames frames st)) i = load (snd st) i) as Fv.
    { apply load_ext. intros k Hk. apply (runFrames_frame n); [done|lia]. }
    subst st' v'. unfold runFrame.
    destruct (runFrames frames st) as [ps vs] eqn:E. cbn [fst snd] in *.
    rewrite <- Fp, <- Fv.
    apply step_formula_aux; lia.
Qed.

(** C10.  A detected hand whose gesture is None exerts no force: the hand
    interaction returns the velocity it was given, also for a particle that
    sits on the hand point, and a whole frame computes what it computes when
    no hand is detected. *)
Theorem gesture_none_is_no_hand {num : Type} `{Number num}
    (w h w' h' : num) (cfg : ParticleSettings num)
    (hx hy hx' hy' : num) (g' : HandGesture.t)
    (targets : list num) (st : list num * list num) :
  (forall fs r X Y Z px py pz vx vy vz,
     handInteraction (HandData.mk hx hy HandGesture.None true)
                     fs r X Y Z px py pz vx vy vz = (vx, vy, vz)) /\
  simulate w h cfg (HandData.mk hx hy HandGesture.None true) targets st =
  simulate w' h' cfg (HandData.mk hx' hy' g' false) targets st.
Proof.
  split.
  - intros. by apply handInteraction_inert.
  - by apply simulate_inert.
Qed.

Lemma step_formula_witness :
  let st' := simulate Demo.width Demo.height (Demo.settings 2)
               (Demo.centred HandGesture.Open) Demo.twoTargets
               (Demo.twoPositions, Demo.twoVelocities) in
  let v' := steppedVelocity (Demo.settings 2) (Demo.centred HandGesture.Open)
              (handPoint Demo.width Demo.height (Demo.centred HandGesture.Open))
              (load Demo.twoPositions 1) (load Demo.twoTargets 1)
              (load Demo.twoVelocities 1) in
  load (snd st') 1 = roundPoint v' /\
  load (fst st') 1 = roundPoint (vadd (load Demo.twoPositions 1) v').
Proof.
  apply (step_formula Demo.width Demo.height (Demo.settings 2)
           (Demo.centred HandGesture.Open) Demo.twoTargets
           Demo.twoPositions Demo.twoVelocities 1); simpl; lia.
Defined.

Lemma active_count_freeze_witness :
  fst (runFrames [Demo.frame 1 HandGesture.Open; Demo.frame 0 HandGesture.Fist]
                 (Demo.twoPositions, Demo.twoVelocities)) !! 3
    = Demo.twoPositions !! 3 /\
  snd (runFrames [Demo.frame 1 HandGesture.Open; Demo.frame 0 HandGesture.Fist]
                 (Demo.twoPositions, Demo.twoVelocities)) !! 3
    = Demo.twoVelocities !! 3.
Proof.
  apply (proj1 (active_count_freeze 1
                  [Demo.frame 1 HandGesture.Open; Demo.frame 0 HandGesture.Fist]
                  (Demo.frame 2 HandGesture.Open)
                  (Demo.twoPositions, Demo.twoVelocities) 1
                  ltac:(repeat constructor)) 3).
  lia.
Defined.

(** ** IEEE arithmetic at zero distance *)

Module IeeeFacts.
Import IeeeSpec.
Local Open Scope js_scope.

Lemma zero_mul_finite (a b : spec_float) :
  is_zero a = true -> Ieee.is_finite b = true -> is_zero (a * b) = true.
Proof. destruct a; try discriminate. destruct b; try discriminate; done. Qed.

Lemma zero_neg (a : spec_float) : is_zero a = true -> is_zero (- a) = true.
Proof. by destruct a. Qed.

Lemma zero_sub_zero (a b : spec_float) :
  is_zero a = true -> is_zero b = true -> is_zero (a - b) = true.
Proof.
  destruct a as [sa| | |]; try discriminate.
  destruct b as [sb| | |]; try discriminate.
  by destruct sa, sb.
Qed.

Lemma zero_add_zero (a b : spec_float) :
  is_zero a = true -> is_zero b = true -> is_zero (a + b) = true.
Proof.
  destruct a as [sa| | |]; try discriminate.
  destruct b as [sb| | |]; try discriminate.
  by destruct sa, sb.
Qed.

Lemma zero_mul_zero (a b : spec_float) :
  is_zero a = true -> is_zero b = true -> is_zero (a * b) = true.
Proof. intros Ha Hb. apply zero_mul_finite; [done|]. by destruct b. Qed.

Lemma zero_sqrt (a : spec_float) : is_zero a = true -> is_zero (Math_sqrt a) = true.
Proof. by destruct a. Qed.

Lemma zero_div_zero (a b : spec_float) :
  is_zero a = true -> is_zero b = true -> a / b = S754_nan.
Proof.
  destruct a; try discriminate. by destruct b.
Qed.

Lemma zero_lt (a y : spec_float) : is_zero a = true -> (a <? y) = (#0 <? y).
Proof. destruct a; try discriminate. by destruct y. Qed.

Lemma nan_mul (y : spec_float) : S754_nan * y = S754_nan.
Proof. by destruct y. Qed.

Lemma add_nan (a : spec_float) : a + S754_nan = S754_nan.
Proof. by destruct a. Qed.

Lemma fround_nan : fround S754_nan = S754_nan.
Proof. done. Qed.

Lemma half_minus_half : is_zero (lit 5 10 - lit 5 10) = true.
Proof. vm_compute. done. Qed.

Lemma handPoint_centred (w h : spec_float) (g : HandGesture.t) :
  Ieee.is_finite w = true -> Ieee.is_finite h = true ->
  at_origin (handPoint w h (Demo.centred g)) = true.
Proof.
  intros Hw Hh. unfold at_origin, handPoint. cbn [Point.x Point.y Point.z HandData.x HandData.y Demo.centred].
  rewrite (zero_mul_finite _ w half_minus_half Hw).
  rewrite (zero_mul_finite _ h (zero_neg _ half_minus_half) Hh).
  done.
Qed.

Lemma squaredDistance_at_origin (p q : Point.t spec_float) :
  at_origin p = true -> at_origin q = true ->
  at_origin (vsub p q) = true /\ is_zero (squaredDistance p q) = true.
Proof.
  unfold at_origin. intros Hp Hq.
  apply andb_prop in Hp as [Hp Hpz]. apply andb_prop in Hp as [Hpx Hpy].
  apply andb_prop in Hq as [Hq Hqz]. apply andb_prop in Hq as [Hqx Hqy].
  assert (is_zero (Point.x (vsub p q)) = true) as Dx by by apply zero_sub_zero.
  assert (is_zero (Point.y (vsub p q)) = true) as Dy by by apply zero_sub_zero.
  assert (is_zero (Point.z (vsub p q)) = true) as Dz by by apply zero_sub_zero.
  split; [by rewrite Dx, Dy, Dz|].
  unfold squaredDistance.
  apply zero_add_zero; [apply zero_add_zero|]; by apply zero_mul_zero.
Qed.

(** On the hand point the direction is 0/0 on every axis, and so is the
    force, whatever its strength. *)
Lemma handForce_at_hand (cfg : ParticleSettings spec_float) hx hy
    (g : HandGesture.t) (hp p : Point.t spec_float) :
  g <> HandGesture.None ->
  at_origin p = true -> at_origin hp = true ->
  (#0 <? interactionRadius cfg * interactionRadius cfg) = true ->
  handForce cfg (HandData.mk hx hy g true) hp p = Some nanPoint.
Proof.
  intros Hg Hp Hh Hr.
  destruct (squaredDistance_at_origin p hp Hp Hh) as [Hd Hsq].
  unfold handForce. cbn [HandData.detected HandData.gesture].
  rewrite (zero_lt _ _ Hsq), Hr.
  unfold at_origin in Hd.
  apply andb_prop in Hd as [Hd Hdz]. apply andb_prop in Hd as [Hdx Hdy].
  rewrite !zero_div_zero by (done || by apply zero_sqrt).
  unfold vscale. cbn [Point.x Point.y Point.z].
  rewrite !nan_mul. by destruct g.
Qed.

Lemma steppedVelocity_at_hand (cfg : ParticleSettings spec_float) hx hy
    (g : HandGesture.t) (hp p t v : Point.t spec_float) :
  g <> HandGesture.None ->
  at_origin p = true -> at_origin hp = true ->
  (#0 <? interactionRadius cfg * interactionRadius cfg) = true ->
  steppedVelocity cfg (HandData.mk hx hy g true) hp p t v = nanPoint /\
  vadd p (steppedVelocity cfg (HandData.mk hx hy g true) hp p t v) = nanPoint.
Proof.
  intros Hg Hp Hh Hr. unfold steppedVelocity.
  rewrite handForce_at_hand by done.
  unfold accumulate, vadd, vscale, nanPoint. cbn [Point.x Point.y Point.z].
  rewrite ?add_nan, ?nan_mul, ?add_nan. done.
Qed.
End IeeeFacts.

(** C1.  The zero-distance case of the hand interaction is not guarded.
    With a detected hand, gesture Open or Fist, at the centre of the
    picture, finite view extents and a non-zero interaction radius, an
    active particle that sits on the mapped hand point (the origin) leaves
    the frame with NaN in every velocity and position component, whatever
    the other settings, its target and its velocity. *)
Theorem zero_distance_poisons_particle
    (w h fs R damp rs : spec_float) (count : nat) (g : HandGesture.t)
    (targets positions velocities : list spec_float) (i : nat) :
  Ieee.is_finite w = true -> Ieee.is_finite h = true ->
  (ofZ 0 <? R * R)%js = true ->
  g <> HandGesture.None ->
  i < count ->
  i * 3 + 2 < length positions -> i * 3 + 2 < length velocities ->
  IeeeSpec.at_origin (load positions i) = true ->
  let st' := simulate w h (mkSettings count fs R damp rs) (Demo.centred g)
                      targets (positions, velocities) in
  load (snd st') i = IeeeSpec.nanPoint /\
  load (fst st') i = IeeeSpec.nanPoint.
Proof.
  intros Hw Hh HR Hg Hi Hp Hv Ho st'. subst st'.
  destruct (step_formula_aux w h (mkSettings count fs R damp rs)
              (Demo.centred g) targets positions velocities i Hi Hp Hv)
    as [Ev Ep].
  rewrite Ev, Ep.
  destruct (IeeeFacts.steppedVelocity_at_hand (mkSettings count fs R damp rs)
              (lit 5 10) (lit 5 10) g (handPoint w h (Demo.centred g))
              (load positions i) (load targets i) (load velocities i))
    as [Es Ea]; try done.
  { by apply IeeeFacts.handPoint_centred. }
  unfold Demo.centred in *. rewrite Ea, Es. done.
Qed.

Lemma zero_distance_poisons_particle_witness :
  load (snd (simulate Demo.width Demo.height (Demo.settings 2)
               (Demo.centred HandGesture.Open) Demo.twoTargets
               ([ofZ 0; ofZ 0; ofZ 0; ofZ 4; ofZ 0; ofZ 3], Demo.twoVelocities))) 0
    = IeeeSpec.nanPoint /\
  load (fst (simulate Demo.width Demo.height (Demo.settings 2)
               (Demo.centred HandGesture.Open) Demo.twoTargets
               ([ofZ 0; ofZ 0; ofZ 0; ofZ 4; ofZ 0; ofZ 3], Demo.twoVelocities))) 0
    = IeeeSpec.nanPoint.
Proof.
  apply (zero_distance_poisons_particle Demo.width Demo.height
           (lit 25 10) (ofZ 25) (lit 96 100) (lit 4 100) 2 HandGesture.Open
           Demo.twoTargets [ofZ 0; ofZ 0; ofZ 0; ofZ 4; ofZ 0; ofZ 3]
           Demo.twoVelocities 0);
    first [ reflexivity | discriminate | simpl; lia ].
Defined.

(** C4.  With [forceStrength = 0] the hand interaction still changes the
    result.  For a hand (Open or Fist) at the centre of the picture and an
    active particle on the mapped hand point, inside any non-zero
    interaction radius, the direction is 0/0: the frame leaves NaN in every
    velocity and position component of the particle, where the frame without
    a hand leaves the spring velocity (v + (target - position) * returnSpeed)
    * damping. *)
Theorem zero_strength_at_hand_point
    (w h R damp rs : spec_float) (count : nat) (g : HandGesture.t)
    (targets positions velocities : list spec_float) (i : nat) :
  Ieee.is_finite w = true -> Ieee.is_finite h = true ->
  (ofZ 0 <? R * R)%js = true ->
  g <> HandGesture.None ->
  i < count ->
  i * 3 + 2 < length positions -> i * 3 + 2 < length velocities ->
  IeeeSpec.at_origin (load positions i) = true ->
  let cfg := mkSettings count (ofZ 0) R damp rs in
  let withHand :=
    simulate w h cfg (Demo.centred g) targets (positions, velocities) in
  let without :=
    simulate w h cfg Demo.noHand targets (positions, velocities) in
  load (snd withHand) i = IeeeSpec.nanPoint /\
  load (fst withHand) i = IeeeSpec.nanPoint /\
  load (snd without) i
  = roundPoint (vscale (vadd (load velocities i)
                             (vscale (vsub (load targets i) (load positions i)) rs))
                       damp).
Proof.
  intros Hw Hh HR Hg Hi Hp Hv Ho cfg withHand without.
  subst withHand without.
  destruct (step_formula_aux w h cfg (Demo.centred g) targets positions
              velocities i Hi Hp Hv) as [Ev Ep].
  destruct (step_formula_aux w h cfg Demo.noHand targets positions
              velocities i Hi Hp Hv) as [Ev' _].
  rewrite Ev, Ep, Ev'.
  destruct (IeeeFacts.steppedVelocity_at_hand cfg (lit 5 10) (lit 5 10) g
              (handPoint w h (Demo.centred g))
              (load positions i) (load targets i) (load velocities i))
    as [Es Ea]; try done.
  { by apply IeeeFacts.handPoint_centred. }
  unfold Demo.centred in *. rewrite Ea, Es. done.
Qed.

Lemma zero_strength_at_hand_point_witness :
  let cfg := mkSettings 2 (ofZ 0) (ofZ 25) (lit 96 100) (lit 4 100) in
  let positions := [ofZ 0; ofZ 0; ofZ 0; ofZ 4; ofZ 0; ofZ 3] in
  let withHand :=
    simulate Demo.width Demo.height cfg (Demo.centred HandGesture.Fist)
             Demo.twoTargets (positions, Demo.twoVelocities) in
  let without :=
    simulate Demo.width Demo.height cfg Demo.noHand
             Demo.twoTargets (positions, Demo.twoVelocities) in
  load (snd withHand) 0 = IeeeSpec.nanPoint /\
  load (fst withHand) 0 = IeeeSpec.nanPoint /\
  load (snd without) 0
  = roundPoint (vscale (vadd (load Demo.twoVelocities 0)
                             (vscale (vsub (load Demo.twoTargets 0)
                                           (load positions 0))
                                     (lit 4 100)))
                       (lit 96 100)).
Proof.
  apply (zero_strength_at_hand_point Demo.width Demo.height
           (ofZ 25) (lit 96 100) (lit 4 100) 2 HandGesture.Fist
           Demo.twoTargets [ofZ 0; ofZ 0; ofZ 0; ofZ 4; ofZ 0; ofZ 3]
           Demo.twoVelocities 0);
    first [ reflexivity | discriminate | simpl; lia ].
Defined.

(** The same frames, evaluated: NaN with the hand, 0.192 on every axis
    without. *)
Example zero_strength_evaluated :
  let cfg := mkSettings 2 (ofZ 0) (ofZ 25) (lit 96 100) (lit 4 100) in
  let st := ([ofZ 0; ofZ 0; ofZ 0; ofZ 4; ofZ 0; ofZ 3], Demo.twoVelocities) in
  let withHand g :=
    simulate Demo.width Demo.height cfg (Demo.centred g) Demo.twoTargets st in
  let without :=
    simulate Demo.width Demo.height cfg Demo.noHand Demo.twoTargets st in
  load (snd (withHand HandGesture.Open)) 0 = IeeeSpec.nanPoint /\
  load (fst (withHand HandGesture.Open)) 0 = IeeeSpec.nanPoint /\
  load (snd (withHand HandGesture.Fist)) 0 = IeeeSpec.nanPoint /\
  load (fst (withHand HandGesture.Fist)) 0 = IeeeSpec.nanPoint /\
  load (snd without) 0 = roundPoint (Point.mk (lit 192 1000) (lit 192 1000) (lit 192 1000)) /\
  load (fst without) 0 = roundPoint (Point.mk (lit 192 1000) (lit 192 1000) (lit 192 1000)).
Proof. vm_compute. repeat split. Qed.

(** ** The hand force on the hand point *)

Section HandPointFacts.
Import IeeeSpec.
Local Open Scope js_scope.

(** Two numbers that compare equal are both zeros, both the same infinity
    or the same finite number. *)
Lemma compare_finite_eq (m m' : positive) (e e' : Z) (c : comparison -> comparison) :
  (forall r, c r = Eq -> r = Eq) ->
  c (match Z.compare e e' with
     | Eq => Pos.compare_cont Eq m m'
     | Lt => Lt
     | Gt => Gt
     end) = Eq ->
  m = m' /\ e = e'.
Proof.
  intros Hc E. apply Hc in E.
  destruct (Z.compare_spec e e') as [->|Hlt|Hgt]; [|done|done].
  change (Pos.compare_cont Eq m m') with (Pos.compare m m') in E.
  apply Pos.compare_eq in E. done.
Qed.

Lemma SFeqb_true (x y : spec_float) :
  SFeqb x y = true ->
  (is_zero x = true /\ is_zero y = true) \/ x = y.
Proof.
  unfold SFeqb. intros E.
  destruct x as [s|s| |s m e].
  - destruct y as [s'|s'| |s' m' e']; cbn [SFcompare] in E.
    + by left.
    + by destruct s'.
    + done.
    + by destruct s'.
  - destruct y as [s'|s'| |s' m' e']; cbn [SFcompare] in E.
    + by destruct s.
    + right. by destruct s, s'.
    + done.
    + by destruct s.
  - by destruct y.
  - destruct y as [s'|s'| |s' m' e']; cbn [SFcompare] in E.
    + by destruct s.
    + by destruct s'.
    + done.
    + right. destruct s, s'; try done.
      * destruct (compare_finite_eq m m' e e' CompOpp) as [-> ->]; [|..|done].
        -- by intros [].
        -- by destruct (match (e ?= e')%Z with Eq => _ | Lt => Gt | Gt => Lt end) eqn:X;
             destruct (e ?= e')%Z; try done;
             destruct (Pos.compare_cont Eq m m').
      * destruct (compare_finite_eq m m' e e' (fun r => r)) as [-> ->]; [done| |done].
        by destruct (match (e ?= e')%Z with Eq => _ | Lt => Lt | Gt => Gt end).
Qed.

(** A finite number minus itself is a zero. *)
Lemma sub_self_zero (x : spec_float) :
  Ieee.is_finite x = true -> is_zero (x - x) = true.
Proof.
  destruct x as [s| | |s m e]; try discriminate; intros _.
  - by destruct s.
  - cbn [nsub ieee SFsub]. rewrite Z.sub_diag. done.
Qed.

Lemma eq_sub_zero (x y : spec_float) :
  Ieee.is_finite x = true -> (x === y) = true -> is_zero (x - y) = true.
Proof.
  intros Hx E. destruct (SFeqb_true x y E) as [[Zx Zy]| <-].
  - by apply IeeeFacts.zero_sub_zero.
  - by apply sub_self_zero.
Qed.

Lemma handInteraction_on_hand_point (hand : HandData.t spec_float)
    (fs r hx hy hz px py pz vx vy vz : spec_float) :
  HandData.detected hand = true ->
  HandData.gesture hand <> HandGesture.None ->
  is_zero (px - hx) = true -> is_zero (py - hy) = true ->
  is_zero (pz - hz) = true ->
  (#0 <? r * r) = true ->
  handInteraction hand fs r hx hy hz px py pz vx vy vz
  = (S754_nan, S754_nan, S754_nan).
Proof.
  intros Hd Hg Zx Zy Zz Hr. unfold handInteraction. rewrite Hd.
  assert (is_zero ((px - hx) * (px - hx) + (py - hy) * (py - hy)
                   + (pz - hz) * (pz - hz)) = true) as Zd.
  { apply IeeeFacts.zero_add_zero; [apply IeeeFacts.zero_add_zero|];
      by apply IeeeFacts.zero_mul_zero. }
  rewrite (IeeeFacts.zero_lt _ _ Zd), Hr.
  set (d2 := (px - hx) * (px - hx) + (py - hy) * (py - hy)
             + (pz - hz) * (pz - hz)) in *.
  pose proof (IeeeFacts.zero_sqrt d2 Zd) as Zs.
  rewrite (IeeeFacts.zero_div_zero (px - hx) (Math_sqrt d2) Zx Zs).
  rewrite (IeeeFacts.zero_div_zero (py - hy) (Math_sqrt d2) Zy Zs).
  rewrite (IeeeFacts.zero_div_zero (pz - hz) (Math_sqrt d2) Zz Zs).
  rewrite !IeeeFacts.nan_mul, !IeeeFacts.add_nan.
  destruct (HandData.gesture hand); done.
Qed.

Lemma particleStep_on_hand_point (cfg : ParticleSettings spec_float)
    (hand : HandData.t spec_float) (hp p t v : Point.t spec_float) :
  HandData.detected hand = true ->
  HandData.gesture hand <> HandGesture.None ->
  (#0 <? interactionRadius cfg * interactionRadius cfg) = true ->
  finitePoint p = true -> onHandPoint p hp = true ->
  particleStep cfg hand (Point.x hp) (Point.y hp) (Point.z hp) p t v
  = (nanPoint, nanPoint).
Proof.
  intros Hd Hg Hr Hf Ho. unfold finitePoint, onHandPoint in *.
  apply andb_prop in Hf as [Hf Hfz]. apply andb_prop in Hf as [Hfx Hfy].
  apply andb_prop in Ho as [Ho Hoz]. apply andb_prop in Ho as [Hox Hoy].
  unfold particleStep. cbv zeta.
  rewrite handInteraction_on_hand_point by (done || by apply eq_sub_zero).
  rewrite !IeeeFacts.nan_mul, !IeeeFacts.add_nan. done.
Qed.
End HandPointFacts.

(** C3.  The step formula has no value on the hand point.  For a detected
    hand with gesture Open or Fist, at any place of the picture, and a
    non-zero interaction radius, an active particle whose finite position
    compares equal to the mapped hand point is at distance 0, inside the
    radius.  There the hand interaction of lines 161-190 returns NaN for
    every velocity component, whatever the velocity was (the direction is
    0 / 0), and the frame stores NaN in all three velocity and position
    components of the particle: not the velocity (v + (target - position)
    * returnSpeed + F_hand) * damping with a force of magnitude
    forceStrength * (1 - d / interactionRadius) * 2 (or 3) that the formula
    gives for every d < interactionRadius. *)
Theorem hand_force_undefined_on_hand_point
    (w h : spec_float) (cfg : ParticleSettings spec_float)
    (hand : HandData.t spec_float)
    (targets positions velocities : list spec_float) (i : nat) :
  HandData.detected hand = true ->
  HandData.gesture hand <> HandGesture.None ->
  (ofZ 0 <? interactionRadius cfg * interactionRadius cfg)%js = true ->
  i < particleCount cfg ->
  i * 3 + 2 < length positions -> i * 3 + 2 < length velocities ->
  finitePoint (load positions i) = true ->
  onHandPoint (load positions i) (handPoint w h hand) = true ->
  let p := load positions i in
  let hp := handPoint w h hand in
  let st' := simulate w h cfg hand targets (positions, velocities) in
  (forall vx vy vz,
     handInteraction hand (forceStrength cfg) (interactionRadius cfg)
       (Point.x hp) (Point.y hp) (Point.z hp)
       (Point.x p) (Point.y p) (Point.z p) vx vy vz
     = (S754_nan, S754_nan, S754_nan)) /\
  load (snd st') i = IeeeSpec.nanPoint /\
  load (fst st') i = IeeeSpec.nanPoint.
Proof.
  intros Hd Hg Hr Hi Hp Hv Hf Ho p hp st'. subst st'. split.
  - intros vx vy vz. unfold finitePoint, onHandPoint in *. fold p hp in Hf, Ho.
    apply andb_prop in Hf as [Hf Hfz]. apply andb_prop in Hf as [Hfx Hfy].
    apply andb_prop in Ho as [Ho Hoz]. apply andb_prop in Ho as [Hox Hoy].
    apply handInteraction_on_hand_point; (done || by apply eq_sub_zero).
  - rewrite simulate_loop. fold hp.
    destruct (loop_slot cfg hand (Point.x hp) (Point.y hp) (Point.z hp)
                targets (particleCount cfg) (positions, velocities) i Hi Hp Hv)
      as [Ep Ev].
    rewrite Ep, Ev. unfold slotStep. cbn [fst snd]. fold p.
    rewrite (particleStep_on_hand_point cfg hand hp p) by done.
    done.
Qed.

Lemma hand_force_undefined_on_hand_point_witness :
  let hand := Demo.centred HandGesture.Fist in
  let positions := [ofZ 0; ofZ 0; ofZ 0; ofZ 4; ofZ 0; ofZ 3] in
  let p := load positions 0 in
  let hp := handPoint Demo.width Demo.height hand in
  let st' := simulate Demo.width Demo.height (Demo.settings 2) hand
                      Demo.twoTargets (positions, Demo.twoVelocities) in
  (forall vx vy vz,
     handInteraction hand (forceStrength (Demo.settings 2))
       (interactionRadius (Demo.settings 2))
       (Point.x hp) (Point.y hp) (Point.z hp)
       (Point.x p) (Point.y p) (Point.z p) vx vy vz
     = (S754_nan, S754_nan, S754_nan)) /\
  load (snd st') 0 = IeeeSpec.nanPoint /\
  load (fst st') 0 = IeeeSpec.nanPoint.
Proof.
  apply (hand_force_undefined_on_hand_point Demo.width Demo.height
           (Demo.settings 2) (Demo.centred HandGesture.Fist) Demo.twoTargets
           [ofZ 0; ofZ 0; ofZ 0; ofZ 4; ofZ 0; ofZ 3] Demo.twoVelocities 0);
    first [ reflexivity | discriminate | simpl; lia ].
Defined.

(** ** The gesture classifier *)

Section GestureFacts.
Context {num : Type} `{Number num}.
Local Open Scope js_scope.

Lemma countFolded_folded wrist base tip c :
  countFolded wrist (landmarkSqDist wrist base) tip c =
  if folded wrist base tip then S c else c.
Proof. done. Qed.

Lemma lookup_21 (landmarks : list (Landmark.t num)) i :
  length landmarks = 21%nat -> i < 21 -> exists l, landmarks !! i = Some l.
Proof.
  intros L Hi. destruct (lookup_lt_is_Some_2 landmarks i) as [l E]; [lia|].
  by exists l.
Qed.
End GestureFacts.

(** C6.  On 21 landmarks the classifier takes the squared distance between
    landmarks 0 and 9 as reference, counts a fingertip among 8, 12, 16, 20
    as folded exactly when its squared distance to landmark 0 is less than
    1.5 times the reference, and answers Fist when at least 3 of the 4 are
    folded, Open otherwise. *)
Theorem detectGesture_classifies {num : Type} `{Number num}
    (landmarks : list (Landmark.t num)) :
  length landmarks = 21%nat ->
  exists wrist base t8 t12 t16 t20,
    landmarks !! 0%nat = Some wrist /\ landmarks !! 9%nat = Some base /\
    landmarks !! 8%nat = Some t8 /\ landmarks !! 12%nat = Some t12 /\
    landmarks !! 16%nat = Some t16 /\ landmarks !! 20%nat = Some t20 /\
    detectGesture landmarks = Some (classify wrist base [t8; t12; t16; t20]).
Proof.
  intros L.
  destruct (lookup_21 landmarks 0 L) as [wrist E0]; [lia|].
  destruct (lookup_21 landmarks 9 L) as [base E9]; [lia|].
  destruct (lookup_21 landmarks 8 L) as [t8 E8]; [lia|].
  destruct (lookup_21 landmarks 12 L) as [t12 E12]; [lia|].
  destruct (lookup_21 landmarks 16 L) as [t16 E16]; [lia|].
  destruct (lookup_21 landmarks 20 L) as [t20 E20]; [lia|].
  exists wrist, base, t8, t12, t16, t20. repeat (split; [done|]).
  unfold detectGesture, fingers. rewrite E0, E9. cbn [mbind option_bind foldl].
  rewrite E8, E12, E16, E20. cbn [mbind option_bind].
  fold (landmarkSqDist wrist base).
  rewrite !countFolded_folded. unfold classify. cbn [List.filter].
  destruct (folded wrist base t8), (folded wrist base t12),
    (folded wrist base t16), (folded wrist base t20); done.
Qed.

Lemma detectGesture_classifies_witness :
  exists wrist base t8 t12 t16 t20,
    fistLandmarks !! 0%nat = Some wrist /\ fistLandmarks !! 9%nat = Some base /\
    fistLandmarks !! 8%nat = Some t8 /\ fistLandmarks !! 12%nat = Some t12 /\
    fistLandmarks !! 16%nat = Some t16 /\ fistLandmarks !! 20%nat = Some t20 /\
    detectGesture fistLandmarks = Some (classify wrist base [t8; t12; t16; t20]).
Proof. apply (detectGesture_classifies fistLandmarks). reflexivity. Defined.

(** ** The shape generator, slot by slot *)

Section StoreLoop.
Context {num : Type} `{Number num}.

Lemma storeAll_succ pt a start n :
  storeAll pt a start (S n) = store (storeAll pt a start n) (start + n) (pt (start + n)).
Proof. unfold storeAll. rewrite seq_S, foldl_app. done. Qed.

Lemma length_storeAll pt a start n : length (storeAll pt a start n) = length a.
Proof.
  induction n as [|n IH]; [done|]. by rewrite storeAll_succ, length_store.
Qed.

Lemma lookup_storeAll_other pt a start n k :
  k < start * 3 \/ (start + n) * 3 <= k -> storeAll pt a start n !! k = a !! k.
Proof.
  induction n as [|n IH]; [done|]. intros Hk.
  rewrite storeAll_succ, lookup_store_other by lia. apply IH. lia.
Qed.

Lemma load_storeAll_other pt a start n i :
  i < start \/ start + n <= i -> load (storeAll pt a start n) i = load a i.
Proof.
  intros Hi. apply load_ext. intros k Hk. apply lookup_storeAll_other. lia.
Qed.

Lemma load_storeAll pt a start n i :
  start <= i < start + n -> i * 3 + 2 < length a ->
  load (storeAll pt a start n) i = roundPoint (pt i).
Proof.
  intros Hi Hl. induction n as [|n IH]; [lia|].
  rewrite storeAll_succ.
  destruct (decide (i = start + n)) as [->|Hne].
  - apply load_store_eq. rewrite length_storeAll. lia.
  - rewrite load_store_ne by lia. apply IH. lia.
Qed.

(** Two buffers of [n] slots with the same slots are the same buffer. *)
Lemma buffer_ext (a b : list num) n :
  length a = n * 3 -> length b = n * 3 ->
  (forall i, i < n -> load a i = load b i) -> a = b.
Proof.
  intros La Lb E. apply list_eq. intros k.
  destruct (decide (k < n * 3)) as [Hk|Hk].
  - pose proof (Nat.div_mod_eq k 3) as Dm.
    assert (k mod 3 < 3) as Hm by (apply Nat.mod_upper_bound; lia).
    remember (k / 3) as q eqn:Eq. remember (k mod 3) as r eqn:Er.
    assert (q < n) as Hi by lia.
    specialize (E q Hi).
    destruct (lookup_lt_is_Some_2 a k) as [u Eu]; [lia|].
    destruct (lookup_lt_is_Some_2 b k) as [v Ev]; [lia|].
    rewrite Eu, Ev. f_equal.
    unfold load in E. injection E as Ex Ey Ez.
    destruct r as [|[|[|r]]]; [| | |lia].
    + replace (q * 3) with k in Ex by lia.
      by rewrite (get_lookup _ _ _ Eu), (get_lookup _ _ _ Ev) in Ex.
    + replace (q * 3 + 1) with k in Ey by lia.
      by rewrite (get_lookup _ _ _ Eu), (get_lookup _ _ _ Ev) in Ey.
    + replace (q * 3 + 2) with k in Ez by lia.
      by rewrite (get_lookup _ _ _ Eu), (get_lookup _ _ _ Ev) in Ez.
  - rewrite !lookup_ge_None_2 by lia. done.
Qed.
End StoreLoop.

Section GeneratorFacts.
Context {num : Type} `{Number num} `{Libm num}.
Variable rng : nat -> num.

Lemma shapePoint_draws type count i k :
  snd (shapePoint rng type count i k) = k + draws type.
Proof. destruct type; cbn [shapePoint getPointOnSphereSurface random snd draws]; lia. Qed.

Lemma fillPoint_loop type count k0 a n :
  foldl (fillPoint rng type count) (a, k0) (seq 0 n) =
  (storeAll (pointAt rng type count k0) a 0 n, k0 + n * draws type).
Proof.
  induction n as [|n IH].
  - cbn [seq foldl]. f_equal. lia.
  - rewrite seq_S, foldl_app, IH. cbn [foldl]. rewrite storeAll_succ.
    rewrite !Nat.add_0_l. unfold fillPoint.
    change (pointAt rng type count k0 n)
      with (fst (shapePoint rng type count n (k0 + n * draws type))).
    pose proof (shapePoint_draws type count n (k0 + n * draws type)) as Hd.
    destruct (shapePoint rng type count n (k0 + n * draws type)) as [p k'].
    cbn [fst snd] in *. subst k'. f_equal. lia.
Qed.

Lemma fillSentinel_loop (a : list num) start n :
  foldl fillSentinel a (seq start n) = storeAll (fun _ => sentinel) a start n.
Proof. done. Qed.

Lemma generate_eq type count k0 :
  generateShapePositionsFrom rng type count k0 =
  (storeAll (fun _ => sentinel)
            (storeAll (pointAt rng type count k0)
                      (newFloat32Array (MAX_PARTICLES * 3)) 0 count)
            count (MAX_PARTICLES - count),
   k0 + count * draws type).
Proof.
  unfold generateShapePositionsFrom. rewrite fillPoint_loop.
  by rewrite fillSentinel_loop.
Qed.

Lemma length_generate type count k0 :
  length (fst (generateShapePositionsFrom rng type count k0)) = MAX_PARTICLES * 3.
Proof.
  rewrite generate_eq. cbn [fst].
  by rewrite !length_storeAll, length_newFloat32Array.
Qed.

(** Slot [i] of the generated buffer: the shape's point below [count], the
    hidden point from [count] on. *)
Lemma load_generate type count k0 i :
  i < MAX_PARTICLES ->
  load (fst (generateShapePositionsFrom rng type count k0)) i =
  if (i <? count)%nat then roundPoint (pointAt rng type count k0 i)
  else roundPoint sentinel.
Proof.
  intros Hi. rewrite generate_eq. cbn [fst].
  destruct (Nat.ltb_spec i count) as [Hc|Hc].
  - rewrite load_storeAll_other by lia.
    apply load_storeAll; [lia|]. rewrite length_newFloat32Array. lia.
  - apply (load_storeAll (fun _ => sentinel)); [lia|].
    rewrite length_storeAll, length_newFloat32Array. lia.
Qed.
End GeneratorFacts.

(** ** The spiral and its reference implementation *)

Section HelixFacts.
Context {num : Type} `{Number num} `{Libm num}.
Local Open Scope js_scope.

Lemma length_helixReference count :
  length (helixReference count) = (MAX_PARTICLES * 3)%nat.
Proof. unfold helixReference. by rewrite length_fmap, length_seq. Qed.

Lemma get_helixReference count i axis :
  (i < MAX_PARTICLES)%nat -> (axis < 3)%nat ->
  get (helixReference count) (i * 3 + axis)%nat =
  fround (coordinate (if (i <? count)%nat then helixPoint count i else sentinel)
                     axis).
Proof.
  intros Hi Ha. unfold get, helixReference.
  rewrite list_lookup_fmap, lookup_seq_lt by lia. cbn [fmap option_fmap option_map default from_option id].
  replace ((0 + (i * 3 + axis)) / 3)%nat with i
    by (apply (Nat.div_unique _ 3 i axis); lia).
  replace ((0 + (i * 3 + axis)) mod 3)%nat with axis
    by (apply (Nat.mod_unique _ 3 i axis); lia).
  done.
Qed.

Lemma load_helixReference count i :
  (i < MAX_PARTICLES)%nat ->
  load (helixReference count) i =
  if (i <? count)%nat then roundPoint (helixPoint count i)
  else roundPoint sentinel.
Proof.
  intros Hi. unfold load.
  rewrite <- (Nat.add_0_r (i * 3)) at 1.
  rewrite !get_helixReference by lia.
  by destruct (i <? count)%nat.
Qed.

Lemma pointAt_Spiral (rng : nat -> num) count k0 i :
  pointAt rng Spiral count k0 i = helixPoint count i.
Proof. done. Qed.
End HelixFacts.

(** C9.  For Spiral the generated buffer is the buffer of the single-helix
    reference implementation, whatever the random source: below
    [requestedCount] slot [i] holds x = 20 cos(0.05 i),
    y = (i / requestedCount) 60 - 30, z = 20 sin(0.05 i) as stored in single
    precision; the 3-arm layout and its random draw leave no trace. *)
Theorem spiral_is_helix {num : Type} `{Number num} `{Libm num}
    (rng : nat -> num) (count : nat) :
  generateShapePositions rng Spiral count = helixReference count /\
  (forall i, i < count -> i < MAX_PARTICLES ->
     load (generateShapePositions rng Spiral count) i
     = roundPoint (helixPoint count i)).
Proof.
  assert (forall i, i < MAX_PARTICLES ->
            load (generateShapePositions rng Spiral count) i =
            load (helixReference count) i) as E.
  { intros i Hi. unfold generateShapePositions.
    rewrite load_generate, load_helixReference by done.
    by rewrite pointAt_Spiral. }
  split.
  - apply (buffer_ext _ _ MAX_PARTICLES); [|apply length_helixReference|done].
    apply length_generate.
  - intros i Hc Hi. rewrite E, load_helixReference by done.
    destruct (Nat.ltb_spec i count); [done|lia].
Qed.

(** ** Counting hidden points *)


Lemma filter_none {A} (f : A -> bool) (l : list A) :
  (forall a, In a l -> f a = false) -> List.filter f l = [].
Proof.
  induction l as [|a l IH]; intros E; [done|].
  cbn [List.filter]. rewrite (E a) by (by left). apply IH.
  intros b Hb. apply E. by right.
Qed.

Lemma filter_every {A} (f : A -> bool) (l : list A) :
  (forall a, In a l -> f a = true) -> List.filter f l = l.
Proof.
  induction l as [|a l IH]; intros E; [done|].
  cbn [List.filter]. rewrite (E a) by (by left). f_equal. apply IH.
  intros b Hb. apply E. by right.
Qed.

(** A predicate false below [c] and true from [c] on holds for [m - c] of
    the first [m] numbers, and fails for [c] of them. *)
Lemma count_split (f : nat -> bool) (c m : nat) :
  c <= m ->
  (forall i, i < c -> f i = false) ->
  (forall i, c <= i < m -> f i = true) ->
  length (List.filter f (seq 0 m)) = m - c /\
  length (List.filter (fun i => negb (f i)) (seq 0 m)) = c.
Proof.
  intros Hc Hlo Hhi.
  assert (seq 0 m = seq 0 c ++ seq (0 + c) (m - c)) as ->.
  { rewrite <- seq_app. f_equal. lia. }
  rewrite !List.filter_app, !length_app.
  rewrite (filter_none f (seq 0 c)), (filter_every f (seq (0 + c) (m - c))).
  - rewrite (filter_every (fun i => negb (f i)) (seq 0 c)),
      (filter_none (fun i => negb (f i)) (seq (0 + c) (m - c))).
    + rewrite !length_seq. cbn [length]. lia.
    + intros i Hi. apply in_seq in Hi. rewrite Hhi by lia. done.
    + intros i Hi. apply in_seq in Hi. rewrite Hlo by lia. done.
  - intros i Hi. apply in_seq in Hi. apply Hhi. lia.
  - intros i Hi. apply in_seq in Hi. apply Hlo. lia.
Qed.

(** ** Exact arithmetic *)

Module ExactFacts.
Local Open Scope R_scope.

Lemma eqb_true (a b : R) : Exact.eqb a b = true <-> a = b.
Proof. unfold Exact.eqb. destruct (Req_dec_T a b); split; (done || discriminate). Qed.

Lemma eqb_false (a b : R) : Exact.eqb a b = false <-> a <> b.
Proof. unfold Exact.eqb. destruct (Req_dec_T a b); split; (done || discriminate). Qed.

Lemma ltb_true (a b : R) : Exact.ltb a b = true <-> a < b.
Proof. unfold Exact.ltb. destruct (Rlt_dec a b); split; (done || discriminate). Qed.

Lemma roundPoint_id (p : Point.t R) : roundPoint p = p.
Proof. by destruct p. Qed.

(** The test of the loop compares squares; for a radius that is not
    negative it is the test [d < interactionRadius] on the distance. *)
Lemma within_radius (r d2 : R) :
  0 <= r -> 0 <= d2 -> (Exact.ltb d2 (r * r) = true <-> sqrt d2 < r).
Proof.
  intros Hr Hd. rewrite ltb_true. split; intros Hlt.
  - rewrite <- (sqrt_square r) by done. by apply sqrt_lt_1_alt.
  - rewrite <- (sqrt_sqrt d2) by done.
    pose proof (sqrt_pos d2). nra.
Qed.

Lemma squaredDistance_nonneg (p q : Point.t R) : 0 <= squaredDistance p q.
Proof.
  destruct p as [px py pz], q as [qx qy qz].
  unfold squaredDistance, vsub. cbn [Point.x Point.y Point.z nadd nsub nmul exact].
  pose proof (Rle_0_sqr (px - qx)). pose proof (Rle_0_sqr (py - qy)).
  pose proof (Rle_0_sqr (pz - qz)). unfold Rsqr in *. lra.
Qed.

(** Away from the hand point the force of an open hand is the unit vector
    from the hand point to the particle times
    forceStrength * (1 - d / interactionRadius) * 2, and the force of a fist
    is the opposite unit vector times the same with multiplier 3. *)
Lemma handForce_magnitude (cfg : ParticleSettings R) hx hy (g : HandGesture.t)
    (h p : Point.t R) :
  let d := sqrt (squaredDistance p h) in
  let m := match g with
           | HandGesture.Open => forceStrength cfg * (1 - d / interactionRadius cfg) * 2
           | HandGesture.Fist => - (forceStrength cfg * (1 - d / interactionRadius cfg) * 3)
           | HandGesture.None => 0
           end in
  g <> HandGesture.None ->
  0 < d ->
  Exact.ltb (squaredDistance p h) (interactionRadius cfg * interactionRadius cfg) = true ->
  exists f, handForce cfg (HandData.mk hx hy g true) h p = Some f /\
    Point.x f * d = (Point.x p - Point.x h) * m /\
    Point.y f * d = (Point.y p - Point.y h) * m /\
    Point.z f * d = (Point.z p - Point.z h) * m /\
    Point.x f * Point.x f + Point.y f * Point.y f + Point.z f * Point.z f = m * m.
Proof.
  intros d m Hg Hd Hin.
  pose proof (squaredDistance_nonneg p h) as Hnn.
  assert (d * d = squaredDistance p h) as Hdd by (by apply sqrt_sqrt).
  unfold handForce. cbn [HandData.detected HandData.gesture nlt nmul exact].
  rewrite Hin. fold d.
  assert (forall n : Point.t R,
            n = Point.mk (Point.x (vsub p h) / d) (Point.y (vsub p h) / d)
                         (Point.z (vsub p h) / d) ->
            Point.x (vscale n m) * d = (Point.x p - Point.x h) * m /\
            Point.y (vscale n m) * d = (Point.y p - Point.y h) * m /\
            Point.z (vscale n m) * d = (Point.z p - Point.z h) * m /\
            Point.x (vscale n m) * Point.x (vscale n m)
            + Point.y (vscale n m) * Point.y (vscale n m)
            + Point.z (vscale n m) * Point.z (vscale n m) = m * m) as Hn.
  { intros n ->. clear Hin. clearbody m d.
    destruct p as [px py pz], h as [qx qy qz].
    unfold squaredDistance, vscale, vsub in *.
    cbn [Point.x Point.y Point.z nadd nsub nmul ndiv exact] in *.
    assert (d <> 0) as Hd0 by lra.
    split; [field; done|]. split; [field; done|]. split; [field; done|].
    transitivity (((px - qx) * (px - qx) + (py - qy) * (py - qy)
                   + (pz - qz) * (pz - qz)) * (m * m) / (d * d)).
    - field. done.
    - rewrite <- Hdd. field. done. }
  destruct g; [done| |].
  - eexists. split; [reflexivity|]. apply Hn. reflexivity.
  - eexists. split; [reflexivity|].
    replace m with (- forceStrength cfg * (1 - d / interactionRadius cfg) * 3)
      in Hn by (unfold m; ring).
    replace m with (- forceStrength cfg * (1 - d / interactionRadius cfg) * 3)
      by (unfold m; ring).
    apply Hn. reflexivity.
Qed.

(** Without rounding, NaN and signed zeros a force of strength 0 changes
    nothing: the frame is the frame without a hand.  (Exact division by 0
    is 0 by convention, so this says nothing about what IEEE arithmetic
    does on the hand point itself.) *)
Lemma handInteraction_zero_strength (hand : HandData.t R)
    (r hx hy hz px py pz vx vy vz : R) :
  handInteraction hand 0 r hx hy hz px py pz vx vy vz = (vx, vy, vz).
Proof.
  unfold handInteraction.
  destruct (HandData.detected hand); [|done].
  destruct (nlt _ _); [|done].
  cbn [nadd nsub nmul ndiv nneg ofZ exact].
  destruct (HandData.gesture hand); cbn [HandGesture.eqb]; [done| |];
    (f_equal; [f_equal|]; ring).
Qed.

Lemma zero_strength_is_no_hand (w h w' h' : R) (cfg : ParticleSettings R)
    (hand hand' : HandData.t R) (targets : list R) (st : list R * list R) :
  forceStrength cfg = 0 -> HandData.detected hand' = false ->
  simulate w h cfg hand targets st = simulate w' h' cfg hand' targets st.
Proof.
  intros Hfs Hno. unfold simulate.
  apply foldl_pointwise. intros [ps vs] i. unfold stepParticle, particleStep.
  rewrite Hfs, handInteraction_zero_strength.
  rewrite (handInteraction_inert hand'); [done|].
  unfold inert. by rewrite Hno.
Qed.
End ExactFacts.

(** ** Magnitudes of IEEE results *)

(** How large the result of a rounded operation can be, read off the
    definitions of [SpecFloat]: rounding a number below [2 ^ k] gives a
    number below [2 ^ (k + 1)] (it can reach [2 ^ k] itself), in every
    format. *)
Section RoundingMagnitude.
Variables prec emax : Z.
Hypothesis Hprec : (0 < prec)%Z.
Local Open Scope Z_scope.

Lemma digits2_pos_lt (p : positive) (j : Z) :
  Zpos (digits2_pos p) <= j <-> Zpos p < 2 ^ j.
Proof.
  revert j. induction p as [p IH|p IH|]; intros j; cbn [digits2_pos].
  - rewrite Pos2Z.inj_succ, Pos2Z.inj_xI.
    pose proof (Pos2Z.is_pos (digits2_pos p)).
    destruct (Z_le_gt_dec j 0) as [Hj|Hj].
    + assert (2 ^ j <= 1) by
        (destruct (Z.eq_dec j 0) as [->|]; [done|rewrite Z.pow_neg_r; lia]).
      lia.
    + replace j with (Z.succ (j - 1)) at 2 by lia.
      rewrite Z.pow_succ_r by lia. specialize (IH (j - 1)). lia.
  - rewrite Pos2Z.inj_succ, Pos2Z.inj_xO.
    pose proof (Pos2Z.is_pos (digits2_pos p)).
    destruct (Z_le_gt_dec j 0) as [Hj|Hj].
    + assert (2 ^ j <= 1) by
        (destruct (Z.eq_dec j 0) as [->|]; [done|rewrite Z.pow_neg_r; lia]).
      lia.
    + replace j with (Z.succ (j - 1)) at 2 by lia.
      rewrite Z.pow_succ_r by lia. specialize (IH (j - 1)). lia.
  - destruct (Z_le_gt_dec j 0) as [Hj|Hj].
    + assert (2 ^ j <= 1) by
        (destruct (Z.eq_dec j 0) as [->|]; [done|rewrite Z.pow_neg_r; lia]).
      lia.
    + assert (2 ^ 1 <= 2 ^ j) by (apply Z.pow_le_mono_r; lia).
      change (2 ^ 1) with 2 in *. lia.
Qed.

Lemma shr_1_m (mrs : shr_record) :
  0 <= shr_m mrs -> shr_m (shr_1 mrs) = shr_m mrs / 2.
Proof.
  destruct mrs as [[|[p|p|]|p] r s]; cbn [shr_m shr_1]; intros Hm; try lia.
  - done.
  - rewrite Pos2Z.inj_xI. apply (Z.div_unique _ _ _ 1); lia.
  - rewrite Pos2Z.inj_xO. apply (Z.div_unique _ _ _ 0); lia.
  - done.
Qed.

Lemma iter_shr_m (p : positive) (mrs : shr_record) :
  0 <= shr_m mrs ->
  shr_m (@SpecFloat.iter_pos shr_record shr_1 p mrs) = shr_m mrs / 2 ^ Zpos p.
Proof.
  revert mrs. induction p as [p IH|p IH|]; intros mrs Hm; cbn [SpecFloat.iter_pos].
  - assert (0 < 2 ^ Zpos p) by (apply Z.pow_pos_nonneg; lia).
    assert (0 <= shr_m (shr_1 mrs)) as H1
      by (rewrite shr_1_m by done; apply Z.div_pos; lia).
    assert (0 <= shr_m (@SpecFloat.iter_pos shr_record shr_1 p (shr_1 mrs))) as H2
      by (rewrite IH by done; apply Z.div_pos; lia).
    rewrite IH, IH, shr_1_m by done.
    rewrite !Z.div_div by lia. f_equal.
    assert (2 ^ Zpos p~1 = 2 * (2 ^ Zpos p * 2 ^ Zpos p)) as ->; [|ring].
    rewrite <- Z.pow_add_r, <- Z.pow_succ_r by lia. f_equal. lia.
  - assert (0 < 2 ^ Zpos p) by (apply Z.pow_pos_nonneg; lia).
    assert (0 <= shr_m (@SpecFloat.iter_pos shr_record shr_1 p mrs)) as H2
      by (rewrite IH by done; apply Z.div_pos; lia).
    rewrite IH, IH by done.
    rewrite !Z.div_div by lia. f_equal.
    rewrite <- Z.pow_add_r by lia. f_equal. lia.
  - rewrite shr_1_m by done. done.
Qed.

Lemma shr_m_of_loc (m : Z) (l : location) : shr_m (shr_record_of_loc m l) = m.
Proof. by destruct l as [|[]]. Qed.

(** The mantissa and exponent after [shr_fexp]: untouched, or shifted right
    up to the exponent [fexp] asks for. *)
Lemma shr_fexp_spec (m e : Z) (l : location) :
  0 <= m ->
  let n := fexp prec emax (Zdigits2 m + e) - e in
  (n <= 0 /\ snd (shr_fexp prec emax m e l) = e /\
   shr_m (fst (shr_fexp prec emax m e l)) = m) \/
  (0 < n /\ snd (shr_fexp prec emax m e l) = e + n /\
   shr_m (fst (shr_fexp prec emax m e l)) = m / 2 ^ n).
Proof.
  intros Hm n. unfold shr_fexp, shr. fold n.
  destruct n as [|p|p] eqn:En; cbn [fst snd].
  - left. rewrite shr_m_of_loc. lia.
  - right. rewrite iter_shr_m by (rewrite shr_m_of_loc; lia).
    rewrite shr_m_of_loc. lia.
  - left. rewrite shr_m_of_loc. lia.
Qed.

Lemma round_nearest_even_bounds (m : Z) (l : location) :
  m <= round_nearest_even m l <= m + 1.
Proof.
  destruct l as [|[]]; cbn [round_nearest_even]; try lia.
  destruct (Z.even m); lia.
Qed.

Lemma below_finite k s m e :
  below k (S754_finite s m e) = true <-> Zpos (digits2_pos m) + e <= k.
Proof. cbn [below]. apply Z.leb_le. Qed.

(** Rounding a positive mantissa of magnitude below [2 ^ k] gives 0, a
    number below [2 ^ (k + 1)] in magnitude, or an infinity. *)
Lemma binary_round_aux_below (s : bool) (p : positive) (ex : Z) (l : location)
    (k : Z) :
  Zpos (digits2_pos p) + ex <= k -> emin prec emax <= k ->
  below (k + 1) (binary_round_aux prec emax s (Zpos p) ex l) = true.
Proof using Hprec.
  intros Hk Hmin. unfold binary_round_aux.
  pose proof (shr_fexp_spec (Zpos p) ex l ltac:(lia)) as S1. cbv zeta in S1.
  destruct (shr_fexp prec emax (Zpos p) ex l) as [mrs' e'].
  cbn [fst snd] in S1.
  assert (Zpos p < 2 ^ (k - ex)) as Hp by (apply digits2_pos_lt; lia).
  assert (0 <= k - e' /\ 0 <= shr_m mrs' < 2 ^ (k - e')) as [Hke Hm1].
  { destruct S1 as [(Hn & -> & ->)|(Hn & -> & ->)].
    - pose proof (Pos2Z.is_pos (digits2_pos p)). split; lia.
    - cbn [Zdigits2] in *.
      set (n := fexp prec emax (Zpos (digits2_pos p) + ex) - ex) in *.
      assert (ex + n <= k) by (unfold n, fexp; lia).
      assert (0 < 2 ^ n) by (apply Z.pow_pos_nonneg; lia).
      split; [lia|]. split; [apply Z.div_pos; lia|].
      apply Z.div_lt_upper_bound; [done|].
      rewrite <- Z.pow_add_r by lia.
      replace (n + (k - (ex + n))) with (k - ex) by lia. done. }
  pose proof (round_nearest_even_bounds (shr_m mrs') (loc_of_shr_record mrs'))
    as Hr.
  set (m2 := round_nearest_even (shr_m mrs') (loc_of_shr_record mrs')) in *.
  assert (m2 < 2 ^ (k + 1 - e')) as Hm2.
  { replace (k + 1 - e') with (Z.succ (k - e')) by lia.
    rewrite Z.pow_succ_r by lia. lia. }
  pose proof (shr_fexp_spec m2 e' loc_Exact ltac:(lia)) as S2. cbv zeta in S2.
  destruct (shr_fexp prec emax m2 e' loc_Exact) as [mrs'' e''].
  cbn [fst snd] in S2.
  destruct (shr_m mrs'') as [|m|m] eqn:Em; [done| |done].
  destruct (e'' <=? emax - prec); [|done].
  apply below_finite.
  cut (Zpos m < 2 ^ (k + 1 - e'')); [intros Hlt; apply digits2_pos_lt in Hlt; lia|].
  destruct S2 as [(Hn & -> & E3)|(Hn & -> & E3)].
  - lia.
  - set (n := fexp prec emax (Zdigits2 m2 + e') - e') in *.
    assert (0 < 2 ^ n) by (apply Z.pow_pos_nonneg; lia).
    destruct (Z_le_gt_dec 0 (k + 1 - (e' + n))) as [Hpos|Hneg].
    + rewrite E3. apply Z.div_lt_upper_bound; [done|].
      rewrite <- Z.pow_add_r by lia.
      replace (n + (k + 1 - (e' + n))) with (k + 1 - e') by lia. done.
    + exfalso.
      assert (2 ^ (k + 1 - e') <= 2 ^ n) by (apply Z.pow_le_mono_r; lia).
      rewrite Z.div_small in E3 by lia. done.
Qed.

Lemma shl_iter (m d : positive) : Zpos (Pos.iter xO m d) = Zpos m * 2 ^ Zpos d.
Proof.
  induction d as [|d IH] using Pos.peano_ind.
  - cbn. lia.
  - rewrite Pos.iter_succ, Pos2Z.inj_xO, IH, Pos2Z.inj_succ.
    rewrite Z.pow_succ_r by lia. ring.
Qed.

(** [shl_align] keeps the value: it only moves the binary point. *)
Lemma shl_align_below (m : positive) (e e' k : Z) :
  Zpos m < 2 ^ (k - e) ->
  Zpos (fst (shl_align m e e')) < 2 ^ (k - snd (shl_align m e e')).
Proof.
  intros Hm. unfold shl_align.
  destruct (e' - e) as [|d|d] eqn:Ed; cbn [fst snd]; [done|done|].
  rewrite shl_iter.
  assert (0 <= k - e).
  { destruct (Z_le_gt_dec 0 (k - e)); [done|].
    rewrite Z.pow_neg_r in Hm by lia. lia. }
  replace (k - e') with (k - e + Zpos d) by lia.
  rewrite Z.pow_add_r by lia.
  assert (0 < 2 ^ Zpos d) by (apply Z.pow_pos_nonneg; lia).
  nia.
Qed.

Lemma binary_round_below (s : bool) (m : positive) (e k : Z) :
  Zpos (digits2_pos m) + e <= k -> emin prec emax <= k ->
  below (k + 1) (binary_round prec emax s m e) = true.
Proof using Hprec.
  intros Hk Hmin. unfold binary_round.
  assert (Zpos m < 2 ^ (k - e)) as Hm by (apply digits2_pos_lt; lia).
  pose proof (shl_align_below m e (fexp prec emax (Zpos (digits2_pos m) + e)) k Hm)
    as Ha.
  destruct (shl_align m e (fexp prec emax (Zpos (digits2_pos m) + e))) as [mz ez].
  cbn [fst snd] in Ha.
  apply binary_round_aux_below; [|done].
  apply digits2_pos_lt in Ha. lia.
Qed.

Lemma binary_normalize_below (m e k : Z) (szero : bool) :
  Z.abs m < 2 ^ (k - e) -> emin prec emax <= k ->
  below (k + 1) (binary_normalize prec emax m e szero) = true.
Proof using Hprec.
  intros Hm Hmin. destruct m as [|m|m]; cbn [binary_normalize]; [done| |];
    (apply binary_round_below; [|done]);
    (cut (Zpos (digits2_pos m) <= k - e); [lia|]); apply digits2_pos_lt; lia.
Qed.

Lemma below_mono (k k' : Z) (x : spec_float) :
  k <= k' -> below k x = true -> below k' x = true.
Proof.
  destruct x as [| | |s m e]; try done. rewrite !below_finite. lia.
Qed.

Lemma SFmul_below (a b : Z) (x y : spec_float) :
  below a x = true -> below b y = true -> emin prec emax <= a + b ->
  below (a + b + 1) (SFmul prec emax x y) = true.
Proof using Hprec.
  intros Hx Hy Hmin.
  destruct x as [sx|sx| |sx mx ex], y as [sy|sy| |sy my ey]; try done.
  cbn [SFmul]. apply below_finite in Hx, Hy.
  apply binary_round_aux_below; [|done].
  assert (Zpos mx < 2 ^ (a - ex)) as Hmx by (apply digits2_pos_lt; lia).
  assert (Zpos my < 2 ^ (b - ey)) as Hmy by (apply digits2_pos_lt; lia).
  pose proof (Pos2Z.is_pos (digits2_pos mx)).
  pose proof (Pos2Z.is_pos (digits2_pos my)).
  cut (Zpos (mx * my) < 2 ^ (a + b - (ex + ey))).
  { intros Hlt. apply digits2_pos_lt in Hlt. lia. }
  replace (a + b - (ex + ey)) with ((a - ex) + (b - ey)) by lia.
  rewrite Z.pow_add_r by lia. rewrite Pos2Z.inj_mul. nia.
Qed.

Lemma aligned_sum_below (sx sy : bool) (mx my : positive) (ex ey a b : Z)
    (op : Z -> Z -> Z) :
  (forall u v, Z.abs (op u v) <= Z.abs u + Z.abs v) ->
  Zpos (digits2_pos mx) + ex <= a -> Zpos (digits2_pos my) + ey <= b ->
  Z.abs (op (cond_Zopp sx (Zpos (fst (shl_align mx ex (Z.min ex ey)))))
            (cond_Zopp sy (Zpos (fst (shl_align my ey (Z.min ex ey))))))
  < 2 ^ (Z.max a b + 1 - Z.min ex ey).
Proof.
  intros Hop Hx Hy.
  assert (Zpos mx < 2 ^ (a - ex)) as Hmx by (apply digits2_pos_lt; lia).
  assert (Zpos my < 2 ^ (b - ey)) as Hmy by (apply digits2_pos_lt; lia).
  pose proof (shl_align_below mx ex (Z.min ex ey) a Hmx) as Ax.
  pose proof (shl_align_below my ey (Z.min ex ey) b Hmy) as Ay.
  assert (snd (shl_align mx ex (Z.min ex ey)) = Z.min ex ey) as Ex.
  { unfold shl_align. destruct (Z.min ex ey - ex) eqn:E; cbn [snd]; lia. }
  assert (snd (shl_align my ey (Z.min ex ey)) = Z.min ex ey) as Ey.
  { unfold shl_align. destruct (Z.min ex ey - ey) eqn:E; cbn [snd]; lia. }
  rewrite Ex in Ax. rewrite Ey in Ay.
  set (u := Zpos (fst (shl_align mx ex (Z.min ex ey)))) in *.
  set (v := Zpos (fst (shl_align my ey (Z.min ex ey)))) in *.
  set (ez := Z.min ex ey) in *.
  pose proof (Pos2Z.is_pos (digits2_pos mx)).
  pose proof (Pos2Z.is_pos (digits2_pos my)).
  assert (0 < u) by (unfold u; lia). assert (0 < v) by (unfold v; lia).
  assert (2 ^ (a - ez) <= 2 ^ (Z.max a b - ez)) by (apply Z.pow_le_mono_r; lia).
  assert (2 ^ (b - ez) <= 2 ^ (Z.max a b - ez)) by (apply Z.pow_le_mono_r; lia).
  replace (Z.max a b + 1 - ez) with (Z.succ (Z.max a b - ez)) by lia.
  rewrite Z.pow_succ_r by lia.
  pose proof (Hop (cond_Zopp sx u) (cond_Zopp sy v)) as Hb.
  assert (Z.abs (cond_Zopp sx u) = u) as Eu by (destruct sx; cbn; lia).
  assert (Z.abs (cond_Zopp sy v) = v) as Ev by (destruct sy; cbn; lia).
  lia.
Qed.

Lemma SFsub_below (a b : Z) (x y : spec_float) :
  below a x = true -> below b y = true -> emin prec emax <= Z.max a b + 1 ->
  below (Z.max a b + 2) (SFsub prec emax x y) = true.
Proof using Hprec.
  intros Hx Hy Hmin.
  destruct x as [sx|sx| |sx mx ex], y as [sy|sy| |sy my ey]; try done.
  - by destruct sx, sy.
  - cbn [SFsub]. apply below_finite. apply below_finite in Hy. lia.
  - by destruct sx, sy.
  - cbn [SFsub]. apply below_finite. apply below_finite in Hx. lia.
  - cbn [SFsub]. apply below_finite in Hx, Hy.
    replace (Z.max a b + 2) with (Z.max a b + 1 + 1) by lia.
    apply binary_normalize_below; [|done].
    apply (aligned_sum_below sx sy mx my ex ey a b Z.sub); [lia|done|done].
Qed.

Lemma SFsqrt_below (x : spec_float) :
  below 0 x = true -> emin prec emax <= 0 ->
  below 1 (SFsqrt prec emax x) = true.
Proof using Hprec.
  intros Hx Hmin. destruct x as [sx|sx| |sx mx ex]; try done.
  - by destruct sx.
  - destruct sx; [done|]. cbn [SFsqrt]. apply below_finite in Hx.
    unfold SFsqrt_core_binary.
    set (e' := Z.min (fexp prec emax
                        (Z.div2 (Zdigits2 (Zpos mx) + ex + 1))) (Z.div2 ex)).
    assert (2 * e' <= ex) as He'.
    { assert (2 * Z.div2 ex <= ex) by (rewrite Z.div2_div; apply Z.mul_div_le; lia).
      unfold e'. lia. }
    set (sh := ex - 2 * e') in *.
    set (m' := match sh with
               | Z0 => Zpos mx
               | Zpos _ => Z.shiftl (Zpos mx) sh
               | Zneg _ => 0
               end).
    assert (m' = Zpos mx * 2 ^ sh) as Em'.
    { unfold m'. destruct sh as [|p|p] eqn:Es; [cbn; lia| |lia].
      apply Z.shiftl_mul_pow2. lia. }
    assert (Zpos mx < 2 ^ (0 - ex)) as Hmx by (apply digits2_pos_lt; lia).
    pose proof (Pos2Z.is_pos (digits2_pos mx)).
    assert (0 < 2 ^ sh) by (apply Z.pow_pos_nonneg; lia).
    assert (0 < m') by (rewrite Em'; lia).
    assert (m' < 2 ^ (0 - e') * 2 ^ (0 - e')) as Hm'.
    { rewrite Em', <- Z.pow_add_r by lia.
      replace (0 - e' + (0 - e')) with (0 - ex + sh) by lia.
      rewrite Z.pow_add_r by lia. nia. }
    pose proof (Z.sqrtrem_sqrt m') as Eq.
    pose proof (Z.sqrt_spec m' ltac:(lia)) as Hs. cbv zeta in Hs.
    destruct (Z.sqrtrem m') as [q r]. cbn [fst] in Eq. subst q.
    assert (0 < Z.sqrt m') as Hq by (apply Z.sqrt_pos; lia).
    assert (Z.sqrt m' < 2 ^ (0 - e')) as Hlt by (apply Z.sqrt_lt_square; lia).
    destruct (Z.sqrt m') as [|q|q] eqn:Eq; [lia| |lia].
    replace 1 with (0 + 1) by lia.
    apply binary_round_aux_below; [|done].
    apply digits2_pos_lt in Hlt. lia.
Qed.
End RoundingMagnitude.

(** The generator computes the formulas of the specification, at the draws
    it makes for the slot. *)
Section ReferenceFacts.
Context {num : Type} `{Number num} `{Libm num}.
Variable rng : nat -> num.

Lemma pointAt_reference type count k0 i :
  pointAt rng type count k0 i = referencePoint rng type count k0 i.
Proof.
  unfold pointAt, referencePoint.
  destruct type; cbn [shapePoint getPointOnSphereSurface random draws fst];
    rewrite ?Nat.add_1_r; try done.
  all: replace (k0 + i * 3 + 2) with (S (S (k0 + i * 3))) by lia; done.
Qed.
End ReferenceFacts.

(** The bounds for binary64 operations and for the binary32 store. *)
Module IeeeBounds.
Local Open Scope js_scope.

Lemma prec_pos : (0 < Ieee.prec)%Z.
Proof. done. Qed.

Lemma single_prec_pos : (0 < 24)%Z.
Proof. done. Qed.

Lemma mul_below (a b : Z) (x y : spec_float) :
  below a x = true -> below b y = true -> (-1074 <= a + b)%Z ->
  below (a + b + 1) (x * y) = true.
Proof.
  intros Hx Hy Hk.
  apply (SFmul_below Ieee.prec Ieee.emax prec_pos); [done|done|].
  unfold emin, Ieee.prec, Ieee.emax. lia.
Qed.

Lemma sub_below (a b : Z) (x y : spec_float) :
  below a x = true -> below b y = true -> (-1074 <= Z.max a b + 1)%Z ->
  below (Z.max a b + 2) (x - y) = true.
Proof.
  intros Hx Hy Hk.
  apply (SFsub_below Ieee.prec Ieee.emax prec_pos); [done|done|].
  unfold emin, Ieee.prec, Ieee.emax. lia.
Qed.

Lemma sqrt_below (x : spec_float) :
  below 0 x = true -> below 1 (Math_sqrt x) = true.
Proof.
  intros Hx.
  apply (SFsqrt_below Ieee.prec Ieee.emax prec_pos); [done|].
  unfold emin, Ieee.prec, Ieee.emax. lia.
Qed.

Lemma fround_below (k : Z) (x : spec_float) :
  below k x = true -> (-149 <= k)%Z -> below (k + 2) (fround x) = true.
Proof.
  intros Hx Hk. destruct x as [s|s| |s m e]; try done.
  cbn [fround ieee]. unfold Ieee.fround, Ieee.to_single.
  apply below_finite in Hx.
  pose proof (binary_round_below 24 128 single_prec_pos s m e k Hx) as H1.
  specialize (H1 ltac:(unfold emin; lia)).
  destruct (binary_round 24 128 s m e) as [s'|s'| |s' m' e']; try done.
  cbn [Ieee.of_single]. apply below_finite in H1.
  replace (k + 2)%Z with (k + 1 + 1)%Z by lia.
  apply (binary_round_below Ieee.prec Ieee.emax prec_pos); [done|].
  unfold emin, Ieee.emax, Ieee.prec. lia.
Qed.


Lemma SFeqb_finite (x : spec_float) (s' : bool) (m' : positive) (e' : Z) :
  SFeqb x (S754_finite s' m' e') = true -> exists s, x = S754_finite s m' e'.
Proof.
  unfold SFeqb. destruct x as [s|s| |s m e]; cbn [SFcompare].
  - by destruct s'.
  - by destruct s.
  - done.
  - assert (match Z.compare e e' with
            | Eq => Pos.compare m m'
            | Lt => Lt
            | Gt => Gt
            end = Eq -> m = m' /\ e = e') as Hc.
    { destruct (Z.compare_spec e e') as [->|Hlt|Hgt]; [|done|done].
      intros Ec. apply Pos.compare_eq in Ec. done. }
    destruct s, s'; try done.
    + intros E. exists true.
      destruct Hc as [-> ->]; [|done].
      unfold Pos.compare.
      destruct (e ?= e')%Z; [|done|done].
      by destruct (Pos.compare_cont Eq m m').
    + intros E. exists false.
      destruct Hc as [-> ->]; [|done].
      unfold Pos.compare.
      destruct (e ?= e')%Z; [|done|done].
      by destruct (Pos.compare_cont Eq m m').
Qed.

Lemma sentinel_value :
  (#9999 : spec_float) = S754_finite false 5497008383066112 (-39).
Proof. vm_compute. reflexivity. Qed.

(** A number below 2^13 in magnitude is not 9999. *)
Lemma below_not_sentinel (x : spec_float) :
  below 13 x = true -> (x === #9999) = false.
Proof.
  intros Hx. cbn [neq ieee].
  destruct (SFeqb x #9999) eqn:E; [|done]. exfalso.
  rewrite sentinel_value in E. apply SFeqb_finite in E as [s ->].
  vm_compute in Hx. discriminate Hx.
Qed.
End IeeeBounds.

(** No stored point of a shape is the hidden point. *)
Section SentinelFacts.
Context {L : Libm spec_float}.
Variable rng : nat -> spec_float.
Hypothesis rng_unit : forall k, below 0 (rng k) = true.
Hypothesis cos_unit : forall x, below 1 (Math_cos x) = true.
Local Open Scope js_scope.

Lemma half_below : below 0 (lit 5 10 : spec_float) = true.
Proof. vm_compute. reflexivity. Qed.

(** One coordinate of every shape's point is below 2^13 in magnitude when
    it is stored: z for the Sphere and the Heart, x for the Cube and the
    helix. *)
Lemma reference_coordinate_below type count k0 i :
  let p := roundPoint (referencePoint rng type count k0 i) in
  below 13 (match type with
            | Sphere | Heart => Point.z p
            | Cube | Spiral => Point.x p
            end) = true.
Proof using rng_unit cos_unit.
  destruct type; cbn [referencePoint roundPoint Point.x Point.z
                      spherePoint cubePoint heartPoint helixPoint].
  - apply (below_mono 9 13); [lia|].
    apply (IeeeBounds.fround_below 7); [|lia].
    apply (IeeeBounds.mul_below 5 1); [by vm_compute|apply cos_unit|lia].
  - apply (below_mono 11 13); [lia|].
    apply (IeeeBounds.fround_below 9); [|lia].
    apply (IeeeBounds.mul_below 2 6); [|by vm_compute|lia].
    apply (IeeeBounds.sub_below 0 0); [apply rng_unit|apply half_below|lia].
  - apply (below_mono 11 13); [lia|].
    apply (IeeeBounds.fround_below 9); [|lia].
    apply (IeeeBounds.mul_below 7 1); [| |lia].
    + apply (IeeeBounds.mul_below 2 4); [|by vm_compute|lia].
      apply (IeeeBounds.sub_below 0 0); [apply rng_unit|apply half_below|lia].
    + apply IeeeBounds.sqrt_below. apply rng_unit.
  - apply (below_mono 9 13); [lia|].
    apply (IeeeBounds.fround_below 7); [|lia].
    apply (IeeeBounds.mul_below 5 1); [by vm_compute|apply cos_unit|lia].
Qed.

Lemma reference_not_sentinel type count k0 i :
  isSentinel (roundPoint (referencePoint rng type count k0 i)) = false.
Proof using rng_unit cos_unit.
  pose proof (reference_coordinate_below type count k0 i) as Hb. cbv zeta in Hb.
  unfold isSentinel.
  destruct type; rewrite (IeeeBounds.below_not_sentinel _ Hb);
    by rewrite ?andb_false_r.
Qed.
End SentinelFacts.

Lemma sentinel_stored : roundPoint (sentinel (num:=spec_float)) = sentinel.
Proof. vm_compute. reflexivity. Qed.

Lemma sentinel_is_hidden : isSentinel (sentinel (num:=spec_float)) = true.
Proof. vm_compute. reflexivity. Qed.

Lemma MAX_PARTICLES_value : MAX_PARTICLES = Z.to_nat 40000.
Proof. done. Qed.

(** C7.  In IEEE arithmetic, for every shape, every requested count
    [c <= MAX_PARTICLES], every start [k0] in the sequence of draws, draws
    of magnitude below 1 ([Math.random] returns a number in [0, 1)) and a
    cosine of magnitude below 2: the generated buffer has [MAX_PARTICLES]
    slots; each slot below [c] holds, rounded to single precision, the
    point that the shape's formula gives at the draws of that slot
    ([referencePoint]), and this point is not the hidden point; each slot
    from [c] on holds 9999 on every axis; so exactly [c] slots are not
    hidden points and exactly [MAX_PARTICLES - c] are. *)
Theorem generated_sentinel_count {L : Libm spec_float}
    (rng : nat -> spec_float) (type : ShapeType) (c k0 : nat) :
  c <= MAX_PARTICLES ->
  (forall k, below 0 (rng k) = true) ->
  (forall x, below 1 (Math_cos x) = true) ->
  let buf := fst (generateShapePositionsFrom rng type c k0) in
  length buf = MAX_PARTICLES * 3 /\
  (forall i, i < c ->
     load buf i = roundPoint (referencePoint rng type c k0 i) /\
     isSentinel (load buf i) = false) /\
  (forall i, c <= i < MAX_PARTICLES -> load buf i = sentinel) /\
  nonSentinelCount buf = c /\
  sentinelCount buf = MAX_PARTICLES - c.
Proof.
  intros Hc Hrng Hcos buf.
  assert (forall i, i < c ->
            load buf i = roundPoint (referencePoint rng type c k0 i) /\
            isSentinel (load buf i) = false) as Hlo.
  { intros i Hi. subst buf. rewrite load_generate by lia.
    destruct (Nat.ltb_spec i c); [|lia].
    rewrite pointAt_reference. split; [done|].
    by apply reference_not_sentinel. }
  assert (forall i, c <= i < MAX_PARTICLES -> load buf i = sentinel) as Hhi.
  { intros i Hi. subst buf. rewrite load_generate by lia.
    destruct (Nat.ltb_spec i c); [lia|]. apply sentinel_stored. }
  split; [apply length_generate|].
  split; [done|]. split; [done|].
  destruct (count_split (fun i => isSentinel (load buf i)) c MAX_PARTICLES)
    as [Hs Hn]; [done| |  |].
  - intros i Hi. by apply Hlo.
  - intros i Hi. rewrite Hhi by done. apply sentinel_is_hidden.
  - done.
Qed.

Lemma generated_sentinel_count_witness :
  let rng := fun _ : nat => (lit 5 10 : spec_float) in
  let c := Z.to_nat 5000 in
  let buf := fst (generateShapePositionsFrom (H0:=flatMath) rng Heart c 0) in
  length buf = MAX_PARTICLES * 3 /\
  (forall i, i < c ->
     load buf i = roundPoint (referencePoint (H0:=flatMath) rng Heart c 0 i) /\
     isSentinel (load buf i) = false) /\
  (forall i, c <= i < MAX_PARTICLES -> load buf i = sentinel) /\
  nonSentinelCount buf = c /\
  sentinelCount buf = MAX_PARTICLES - c.
Proof.
  apply (generated_sentinel_count (L:=flatMath) (fun _ => lit 5 10) Heart
           (Z.to_nat 5000) 0).
  - rewrite MAX_PARTICLES_value. lia.
  - intros k. vm_compute. reflexivity.
  - intros x. vm_compute. reflexivity.
Defined.

(** ** The shape effect and the mount effect *)

Section EffectFacts.
Context {num : Type} `{Number num} `{Libm num}.
Variable rng : nat -> num.
Local Open Scope js_scope.

Lemma shapeEffect_mounted shape positions vels targets k :
  length positions = (MAX_PARTICLES * 3)%nat ->
  shapeEffect rng shape (mkCanvas (Some positions) vels targets) k =
  (Some (mkCanvas
           (Some (if firstPointIsZero positions
                  then fst (generateShapePositionsFrom rng shape MAX_PARTICLES k)
                  else positions))
           vels
           (fst (generateShapePositionsFrom rng shape MAX_PARTICLES k))),
   snd (generateShapePositionsFrom rng shape MAX_PARTICLES k)).
Proof.
  intros L. unfold shapeEffect, firstPointIsZero.
  pose proof (length_generate rng shape MAX_PARTICLES k) as Lg.
  destruct (generateShapePositionsFrom rng shape MAX_PARTICLES k) as [newTargets k'].
  cbn [fst snd geometry velocities] in *.
  destruct (_ && _); [|done].
  rewrite set_from_same_length by lia. done.
Qed.

Lemma shapeEffect_unmounted shape vels targets k :
  shapeEffect rng shape (mkCanvas None vels targets) k =
  (Some (mkCanvas None vels
           (fst (generateShapePositionsFrom rng shape MAX_PARTICLES k))),
   snd (generateShapePositionsFrom rng shape MAX_PARTICLES k)).
Proof.
  unfold shapeEffect.
  by destruct (generateShapePositionsFrom rng shape MAX_PARTICLES k).
Qed.

Lemma mountEffect_eq shape c k :
  mountEffect rng shape c k =
  (Some (mkCanvas
           (Some (fst (generateShapePositionsFrom rng shape MAX_PARTICLES k)))
           (velocities c)
           (fst (generateShapePositionsFrom rng shape MAX_PARTICLES k))),
   snd (generateShapePositionsFrom rng shape MAX_PARTICLES k)).
Proof.
  unfold mountEffect.
  pose proof (length_generate rng shape MAX_PARTICLES k) as Lg.
  destruct (generateShapePositionsFrom rng shape MAX_PARTICLES k) as [newTargets k'].
  cbn [fst snd] in *.
  rewrite set_from_same_length; [done|].
  by rewrite length_newFloat32Array.
Qed.
End EffectFacts.

(** C2, as the code has it.  A shape change regenerates the target buffer
    for all slots and leaves the velocities alone.  When the position buffer
    exists, it is overwritten with the new targets exactly when the three
    coordinates of its first point compare equal to 0, and is left alone
    otherwise; before the mount effect there is no position buffer to touch.
    The first load is the mount effect: it copies the initial targets into
    the fresh position buffer, so that positions equal targets in every slot,
    with the velocities still the zeros they were allocated with. *)
Theorem shape_change_snap {num : Type} `{Number num} `{Libm num}
    (rng : nat -> num) (shape : ShapeType)
    (positions vels targets : list num) (k : nat) :
  length positions = MAX_PARTICLES * 3 ->
  let newTargets := fst (generateShapePositionsFrom rng shape MAX_PARTICLES k) in
  fst (shapeEffect rng shape (mkCanvas (Some positions) vels targets) k)
  = Some (mkCanvas (Some (if firstPointIsZero positions
                          then newTargets else positions))
                   vels newTargets) /\
  fst (shapeEffect rng shape (mkCanvas None vels targets) k)
  = Some (mkCanvas None vels newTargets) /\
  fst (mountEffect rng shape initialCanvas k)
  = Some (mkCanvas (Some newTargets) (newFloat32Array (MAX_PARTICLES * 3))
                   newTargets).
Proof.
  intros L newTargets. subst newTargets.
  rewrite shapeEffect_mounted by done.
  rewrite shapeEffect_unmounted, mountEffect_eq. done.
Qed.

Lemma shape_change_snap_witness :
  let rng := fun _ : nat => 0%R in
  let positions := newFloat32Array (num:=R) (MAX_PARTICLES * 3) in
  let vels := newFloat32Array (num:=R) (MAX_PARTICLES * 3) in
  let targets := newFloat32Array (num:=R) (MAX_PARTICLES * 3) in
  let newTargets := fst (generateShapePositionsFrom rng Cube MAX_PARTICLES 0) in
  fst (shapeEffect rng Cube (mkCanvas (Some positions) vels targets) 0)
  = Some (mkCanvas (Some (if firstPointIsZero positions
                          then newTargets else positions))
                   vels newTargets) /\
  fst (shapeEffect rng Cube (mkCanvas None vels targets) 0)
  = Some (mkCanvas None vels newTargets) /\
  fst (mountEffect rng Cube initialCanvas 0)
  = Some (mkCanvas (Some newTargets) (newFloat32Array (MAX_PARTICLES * 3))
                   newTargets).
Proof.
  apply (shape_change_snap (fun _ => 0%R) Cube
           (newFloat32Array (MAX_PARTICLES * 3))
           (newFloat32Array (MAX_PARTICLES * 3))
           (newFloat32Array (MAX_PARTICLES * 3)) 0).
  apply length_newFloat32Array.
Defined.

Lemma load_coordinates {num : Type} `{Number num} (a : list num) i (p : Point.t num) :
  load a i = p ->
  get a (i * 3) = Point.x p /\ get a (i * 3 + 1) = Point.y p /\
  get a (i * 3 + 2) = Point.z p.
Proof. intros <-. done. Qed.

(** C2 as stated fails.  Let the first three draws be 1/2 and all later
    draws 0.  The first load with Cube puts the first particle on the origin
    and the second at -17.5 on every axis: the position buffer is no longer
    all zero.  A later switch to Spiral finds the first point at 0, 0, 0 and
    overwrites the positions with the new targets: the first particle jumps
    from x = 0 to x = 20 within the effect, without any frame. *)
Lemma later_switch_snaps :
  let rng := fun k : nat => if (k <? 3)%nat then (1 / 2)%R else 0%R in
  exists (T1 T2 : list R) (k1 : nat),
    mountEffect rng Cube initialCanvas 0
    = (Some (mkCanvas (Some T1) (newFloat32Array (MAX_PARTICLES * 3)) T1), k1) /\
    get T1 0 = 0%R /\ get T1 3 = (- (175 / 10))%R /\
    fst (shapeEffect rng Spiral
           (mkCanvas (Some T1) (newFloat32Array (MAX_PARTICLES * 3)) T1) k1)
    = Some (mkCanvas (Some T2) (newFloat32Array (MAX_PARTICLES * 3)) T2) /\
    get T2 0 = 20%R.
Proof.
  intros rng.
  assert (1 < MAX_PARTICLES) as HM by (rewrite MAX_PARTICLES_value; lia).
  set (T1 := fst (generateShapePositionsFrom rng Cube MAX_PARTICLES 0)).
  set (k1 := snd (generateShapePositionsFrom rng Cube MAX_PARTICLES 0)).
  set (T2 := fst (generateShapePositionsFrom rng Spiral MAX_PARTICLES k1)).
  assert (load T1 0 = Point.mk 0 0 0)%R as L0.
  { unfold T1. rewrite load_generate by lia.
    destruct (Nat.ltb_spec 0 MAX_PARTICLES); [|lia].
    rewrite ExactFacts.roundPoint_id. unfold pointAt. cbn. f_equal; lra. }
  assert (load T1 1 = Point.mk (- (175 / 10)) (- (175 / 10)) (- (175 / 10)))%R as L1.
  { unfold T1. rewrite load_generate by lia.
    destruct (Nat.ltb_spec 1 MAX_PARTICLES); [|lia].
    rewrite ExactFacts.roundPoint_id. unfold pointAt. cbn. f_equal; lra. }
  assert (load T2 0 = Point.mk 20 (-30) 0)%R as L2.
  { unfold T2. rewrite load_generate by lia.
    destruct (Nat.ltb_spec 0 MAX_PARTICLES); [|lia].
    rewrite ExactFacts.roundPoint_id, pointAt_Spiral. unfold helixPoint, lit.
    cbn [ofZ exact nmul ndiv nsub Math_cos Math_sin exact_libm Z.of_nat].
    unfold Rdiv at 2. rewrite !Rmult_0_l, cos_0, sin_0. f_equal; lra. }
  apply load_coordinates in L0 as (X0 & Y0 & Z0).
  apply load_coordinates in L1 as (X1 & _ & _).
  apply load_coordinates in L2 as (X2 & _ & _).
  cbn [Point.x Point.y Point.z] in *.
  exists T1, T2, k1. split.
  { rewrite mountEffect_eq. unfold initialCanvas. cbn [velocities]. reflexivity. }
  split; [exact X0|]. split; [exact X1|]. split; [|exact X2].
  rewrite shapeEffect_mounted by apply length_generate.
  assert (firstPointIsZero T1 = true) as ->.
  { unfold firstPointIsZero. change (get T1 1) with (get T1 (0 * 3 + 1)).
    change (get T1 2) with (get T1 (0 * 3 + 2)).
    change (get T1 0) with (get T1 (0 * 3)).
    rewrite X0, Y0, Z0. cbn [neq exact ofZ].
    assert (Exact.eqb 0 0 = true) as -> by by apply ExactFacts.eqb_true.
    reflexivity. }
  reflexivity.
Qed.

(** ** Convergence under the return force *)

(** With the settings the application starts with (damping 0.96,
    returnSpeed 0.04), in IEEE arithmetic, no hand, zero velocity and one
    particle at distance 1 from its target, the particle passes its target
    during the ninth frame and ends farther from it than it was after the
    eighth: the squared distance grows from the eighth to the ninth frame. *)
Lemma default_settings_overshoot :
  let targets := [ofZ 0; ofZ 0; ofZ 0] in
  let st := ([ofZ 1; ofZ 0; ofZ 0], [ofZ 0; ofZ 0; ofZ 0]) in
  let after k :=
    fst (repeatFrame Demo.width Demo.height (Demo.settings 1) Demo.noHand
                     targets k st) in
  (aggregateSqDist (after 8%nat) targets 1 <? aggregateSqDist (after 9%nat) targets 1)%js
  = true /\
  (aggregateSqDist (after 9%nat) targets 1 <? aggregateSqDist (after 8%nat) targets 1)%js
  = false.
Proof. vm_compute. split; reflexivity. Qed.

Section Overdamped.
Local Open Scope R_scope.
Variables d rs mu : R.
Hypothesis Hd : 0 < d < 1.
Hypothesis Hrs : 0 < rs.
Hypothesis Hmu : 0 <= mu.
Hypothesis Hover : d * (mu + rs) * (1 + mu) <= mu.

Lemma gain_lt_1 : d * (mu + rs) < 1.
Proof using Hd Hrs Hmu Hover.
  assert (0 < d * (mu + rs)) by nra.
  nra.
Qed.

Lemma coord_pos (e v : R) :
  0 <= e -> - (mu * e) <= v <= 0 ->
  let v' := (v + (- e) * rs) * d in
  (0 <= e + v' /\ - (mu * (e + v')) <= v' <= 0) /\
  e + v' <= e /\ (0 < e -> e + v' < e /\ 0 < e + v').
Proof using Hd Hrs Hmu Hover.
  intros He Hv v'. pose proof gain_lt_1 as Hg.
  assert (v' = d * v - d * rs * e) as E by (unfold v'; ring).
  clearbody v'.
  assert (d * v <= 0) as A1 by (clear - Hd Hv; nra).
  assert (- (d * (mu * e)) <= d * v) as A2 by (clear - Hd Hv; nra).
  assert (0 < d * rs) as A0 by (clear - Hd Hrs; nra).
  assert (0 <= d * rs * e) as A3 by (clear - A0 He; nra).
  assert (0 <= d * (mu + rs)) as A4 by (clear - Hd Hrs Hmu; nra).
  assert (d * (mu + rs) * e <= e) as A5 by (clear - A4 Hg He; nra).
  assert (d * (mu + rs) * (1 + mu) * e <= mu * e) as A6 by (clear - Hover He; nra).
  assert (- (d * (mu + rs) * e) <= v') as L by (clear - E A2; lra).
  assert (v' <= - (d * rs * e)) as U by lra.
  assert (- (mu * e) <= v' * (1 + mu)) as K.
  { assert (- (d * (mu + rs) * e) * (1 + mu) <= v' * (1 + mu))
      by (clear - L Hmu; nra).
    lra. }
  split; [split; [lra|split; [lra|lra]]|].
  split; [lra|]. intros Hp.
  assert (0 < d * rs * e) by (clear - A0 Hp; nra).
  assert (d * (mu + rs) * e < e) by (clear - A4 Hg Hp; nra).
  lra.
Qed.

(** One frame on one coordinate: the settled state is kept, the squared
    error does not grow, and it shrinks, without reaching 0, when the
    coordinate is off target. *)
Lemma coord_step (p t v : R) :
  settled mu (p - t) v ->
  let v' := (v + (t - p) * rs) * d in
  settled mu (p + v' - t) v' /\
  (p + v' - t) * (p + v' - t) <= (p - t) * (p - t) /\
  (p <> t ->
   (p + v' - t) * (p + v' - t) < (p - t) * (p - t) /\ p + v' <> t).
Proof using Hd Hrs Hmu Hover.
  intros [[He Hv]|[He Hv]] v'.
  - destruct (coord_pos (p - t) v He Hv) as ([S1 S2] & Le & Lt).
    replace ((v + - (p - t) * rs) * d) with v' in * by (unfold v'; ring).
    replace (p - t + v') with (p + v' - t) in * by ring.
    split; [left; done|]. split; [nra|].
    intros Hne. destruct Lt as [Lt1 Lt2]; [lra|]. split; [nra|lra].
  - destruct (coord_pos (- (p - t)) (- v)) as ([S1 S2] & Le & Lt); [lra|lra|].
    replace ((- v + - - (p - t) * rs) * d) with (- v') in * by (unfold v'; ring).
    replace (- (p - t) + - v') with (- (p + v' - t)) in * by ring.
    split; [right; lra|]. split; [nra|].
    intros Hne. destruct Lt as [Lt1 Lt2]; [lra|]. split; [nra|lra].
Qed.
End Overdamped.

Section SumFacts.
Local Open Scope R_scope.

Lemma square_pos_or_zero (a : R) : 0 <= a * a.
Proof. nra. Qed.

Lemma square_pos (a : R) : a <> 0 -> 0 < a * a.
Proof. intros Ha. destruct (Rtotal_order a 0) as [|[|]]; [nra|done|nra]. Qed.

Lemma total_le (f g : nat -> R) (l : list nat) :
  (forall i, In i l -> g i <= f i) -> total g l <= total f l.
Proof.
  induction l as [|a l IH]; intros E; cbn [total foldr]; [lra|].
  pose proof (E a (or_introl eq_refl)).
  assert (total g l <= total f l) by (apply IH; intros i Hi; apply E; by right).
  unfold total in *. lra.
Qed.

Lemma total_lt (f g : nat -> R) (l : list nat) :
  (forall i, In i l -> g i <= f i) ->
  (exists i, In i l /\ g i < f i) ->
  total g l < total f l.
Proof.
  induction l as [|a l IH]; intros E [i [Hi Hlt]]; [destruct Hi|].
  cbn [total foldr].
  pose proof (E a (or_introl eq_refl)) as Ha.
  assert (total g l <= total f l) as Hle
    by (apply total_le; intros j Hj; apply E; by right).
  destruct Hi as [->|Hi].
  - unfold total in *. lra.
  - assert (total g l < total f l) as Hl.
    { apply IH; [intros j Hj; apply E; by right|]. by exists i. }
    unfold total in *. lra.
Qed.
End SumFacts.

Section FrameConvergence.
Local Open Scope R_scope.
Variables w h mu : R.
Variable cfg : ParticleSettings R.
Variable hand : HandData.t R.
Variable targets : list R.
Hypothesis Hhand : HandData.detected hand = false.
Hypothesis Hd : 0 < damping cfg < 1.
Hypothesis Hrs : 0 < returnSpeed cfg.
Hypothesis Hmu : 0 <= mu.
Hypothesis Hover : damping cfg * (mu + returnSpeed cfg) * (1 + mu) <= mu.

Lemma aggregate_total (st : list R * list R) :
  aggregateSqDist (fst st) targets (particleCount cfg)
  = total (slotSqDist targets st) (seq 0 (particleCount cfg)).
Proof. done. Qed.

Lemma steppedVelocity_no_hand hp (p t v : Point.t R) :
  steppedVelocity cfg hand hp p t v =
  Point.mk ((Point.x v + (Point.x t - Point.x p) * returnSpeed cfg) * damping cfg)
           ((Point.y v + (Point.y t - Point.y p) * returnSpeed cfg) * damping cfg)
           ((Point.z v + (Point.z t - Point.z p) * returnSpeed cfg) * damping cfg).
Proof using Hhand.
  unfold steppedVelocity, handForce. rewrite Hhand. done.
Qed.

Lemma point_step hp (p t v : Point.t R) :
  settledPoint mu p t v ->
  let v' := steppedVelocity cfg hand hp p t v in
  let p' := vadd p v' in
  settledPoint mu p' t v' /\
  squaredDistance p' t <= squaredDistance p t /\
  (0 < squaredDistance p t ->
   squaredDistance p' t < squaredDistance p t /\ 0 < squaredDistance p' t).
Proof using Hhand Hd Hrs Hmu Hover.
  intros (Sx & Sy & Sz) v' p'. subst p' v'.
  rewrite steppedVelocity_no_hand.
  destruct p as [px py pz], t as [tx ty tz], v as [vx vy vz].
  unfold settledPoint, squaredDistance, vadd, vsub.
  cbn [Point.x Point.y Point.z nadd nsub nmul exact] in *.
  destruct (coord_step _ _ _ Hd Hrs Hmu Hover px tx vx Sx) as (Sx' & Lx & Nx).
  destruct (coord_step _ _ _ Hd Hrs Hmu Hover py ty vy Sy) as (Sy' & Ly & Ny).
  destruct (coord_step _ _ _ Hd Hrs Hmu Hover pz tz vz Sz) as (Sz' & Lz & Nz).
  cbv zeta in *.
  set (vx' := (vx + (tx - px) * returnSpeed cfg) * damping cfg) in *.
  set (vy' := (vy + (ty - py) * returnSpeed cfg) * damping cfg) in *.
  set (vz' := (vz + (tz - pz) * returnSpeed cfg) * damping cfg) in *.
  split; [done|]. split; [lra|].
  intros Hpos.
  assert (0 <= (px + vx' - tx) * (px + vx' - tx)) by nra.
  assert (0 <= (py + vy' - ty) * (py + vy' - ty)) by nra.
  assert (0 <= (pz + vz' - tz) * (pz + vz' - tz)) by nra.
  destruct (Req_dec_T px tx) as [Ex|Ex].
  - destruct (Req_dec_T py ty) as [Ey|Ey].
    + destruct (Req_dec_T pz tz) as [Ez|Ez].
      * subst. exfalso. clear - Hpos. nra.
      * destruct (Nz Ez) as [Nz1 Nz2].
        assert (0 < (pz + vz' - tz) * (pz + vz' - tz)) by (clear - Nz2; nra).
        lra.
    + destruct (Ny Ey) as [Ny1 Ny2].
      assert (0 < (py + vy' - ty) * (py + vy' - ty)) by (clear - Ny2; nra).
      lra.
  - destruct (Nx Ex) as [Nx1 Nx2].
    assert (0 < (px + vx' - tx) * (px + vx' - tx)) by (clear - Nx2; nra).
    lra.
Qed.
End FrameConvergence.

Section RepeatedFrames.
Local Open Scope R_scope.
Variables w h mu : R.
Variable cfg : ParticleSettings R.
Variable hand : HandData.t R.
Variable targets : list R.
Hypothesis Hhand : HandData.detected hand = false.
Hypothesis Hd : 0 < damping cfg < 1.
Hypothesis Hrs : 0 < returnSpeed cfg.
Hypothesis Hmu : 0 <= mu.
Hypothesis Hover : damping cfg * (mu + returnSpeed cfg) * (1 + mu) <= mu.

(** One frame keeps every active particle settled and moves none of them
    away from its target; a particle off its target comes closer without
    reaching it. *)
Lemma frame_step (st : list R * list R) :
  (particleCount cfg * 3 <= length (fst st))%nat ->
  (particleCount cfg * 3 <= length (snd st))%nat ->
  settledState mu cfg targets st ->
  settledState mu cfg targets (simulate w h cfg hand targets st) /\
  (forall i, (i < particleCount cfg)%nat ->
     slotSqDist targets (simulate w h cfg hand targets st) i
       <= slotSqDist targets st i /\
     (0 < slotSqDist targets st i ->
      slotSqDist targets (simulate w h cfg hand targets st) i
        < slotSqDist targets st i /\
      0 < slotSqDist targets (simulate w h cfg hand targets st) i)).
Proof using Hhand Hd Hrs Hmu Hover.
  intros Lp Lv Hs. destruct st as [ps vs]. cbn [fst snd] in *.
  assert (forall i, (i < particleCount cfg)%nat ->
            settledPoint mu
              (load (fst (simulate w h cfg hand targets (ps, vs))) i)
              (load targets i)
              (load (snd (simulate w h cfg hand targets (ps, vs))) i) /\
            slotSqDist targets (simulate w h cfg hand targets (ps, vs)) i
              <= slotSqDist targets (ps, vs) i /\
            (0 < slotSqDist targets (ps, vs) i ->
             slotSqDist targets (simulate w h cfg hand targets (ps, vs)) i
               < slotSqDist targets (ps, vs) i /\
             0 < slotSqDist targets (simulate w h cfg hand targets (ps, vs)) i))
    as Hall.
  { intros i Hi. unfold slotSqDist.
    destruct (step_formula_aux w h cfg hand targets ps vs i Hi) as [Ev Ep];
      [lia|lia|].
    rewrite Ev, Ep, !ExactFacts.roundPoint_id. cbn [fst snd].
    apply (point_step mu cfg hand Hhand Hd Hrs Hmu Hover).
    apply (Hs i Hi). }
  split.
  - intros i Hi. apply (Hall i Hi).
  - intros i Hi. apply (Hall i Hi).
Qed.

Lemma settled_at_rest (e : R) : settled mu e 0.
Proof using Hmu.
  unfold settled. destruct (Rle_dec 0 e); [left|right]; nra.
Qed.

Lemma off_target_positive (p t : Point.t R) :
  p <> t -> 0 < squaredDistance p t.
Proof.
  intros Hne. destruct p as [px py pz], t as [tx ty tz].
  unfold squaredDistance, vsub. cbn [Point.x Point.y Point.z nadd nsub nmul exact].
  pose proof (square_pos_or_zero (px - tx)) as Sx.
  pose proof (square_pos_or_zero (py - ty)) as Sy.
  pose proof (square_pos_or_zero (pz - tz)) as Sz.
  destruct (Req_dec_T px tx) as [Ex|Ex];
    [|pose proof (square_pos (px - tx)); lra].
  destruct (Req_dec_T py ty) as [Ey|Ey];
    [|pose proof (square_pos (py - ty)); lra].
  destruct (Req_dec_T pz tz) as [Ez|Ez];
    [|pose proof (square_pos (pz - tz)); lra].
  subst. by destruct Hne.
Qed.

(** From rest, every number of frames leaves the buffers as long as they
    were, the particles settled, and some particle off its target. *)
Lemma repeat_invariant (positions velocities : list R) (k : nat) :
  (particleCount cfg * 3 <= length positions)%nat ->
  (particleCount cfg * 3 <= length velocities)%nat ->
  (forall i, (i < particleCount cfg)%nat ->
     load velocities i = Point.mk 0 0 0) ->
  (exists i, (i < particleCount cfg)%nat /\ load positions i <> load targets i) ->
  let st := repeatFrame w h cfg hand targets k (positions, velocities) in
  (particleCount cfg * 3 <= length (fst st))%nat /\
  (particleCount cfg * 3 <= length (snd st))%nat /\
  settledState mu cfg targets st /\
  (exists i, (i < particleCount cfg)%nat /\ 0 < slotSqDist targets st i).
Proof using Hhand Hd Hrs Hmu Hover.
  intros Lp Lv Hrest [j [Hj Hoff]]. induction k as [|k IH]; cbv zeta in *.
  - change (repeatFrame w h cfg hand targets 0 (positions, velocities))
      with (positions, velocities).
    cbn [fst snd].
    split; [done|]. split; [done|]. split.
    + intros i Hi. unfold settledPoint. cbn [fst snd]. rewrite (Hrest i Hi).
      cbn [Point.x Point.y Point.z]. repeat split; apply settled_at_rest.
    + exists j. split; [done|]. by apply off_target_positive.
  - destruct IH as (Lp' & Lv' & Hs & [i [Hi Hpos]]).
    change (repeatFrame w h cfg hand targets (S k) (positions, velocities))
      with (simulate w h cfg hand targets
              (repeatFrame w h cfg hand targets k (positions, velocities))).
    destruct (simulate_length w h cfg hand targets
                (repeatFrame w h cfg hand targets k (positions, velocities)))
      as [-> ->].
    destruct (frame_step _ Lp' Lv' Hs) as [Hs' Hstep].
    split; [done|]. split; [done|]. split; [done|].
    exists i. split; [done|]. by apply (Hstep i Hi).
Qed.
End RepeatedFrames.

(** The recurrence of the frame over the real numbers, without the
    rounding of the code.  With no hand detected, damping in (0, 1), a
    positive returnSpeed small enough for the spring not to overshoot -
    there is a margin [mu >= 0] with damping * (mu + returnSpeed) * (1 + mu)
    <= mu - zero initial velocities and at least one active particle away
    from its target, every further frame strictly decreases the aggregate
    squared distance between the active particles' positions and their
    targets.  The rounded arithmetic of the code departs from this:
    [ieee_stall] and [ieee_drift] below. *)
Theorem overdamped_return_converges (w h mu : R) (cfg : ParticleSettings R)
    (hand : HandData.t R) (targets positions velocities : list R) (k : nat) :
  HandData.detected hand = false ->
  (0 < damping cfg < 1)%R ->
  (0 < returnSpeed cfg)%R ->
  (0 <= mu)%R ->
  (damping cfg * (mu + returnSpeed cfg) * (1 + mu) <= mu)%R ->
  particleCount cfg * 3 <= length positions ->
  particleCount cfg * 3 <= length velocities ->
  (forall i, i < particleCount cfg -> load velocities i = Point.mk 0%R 0%R 0%R) ->
  (exists i, i < particleCount cfg /\ load positions i <> load targets i) ->
  (aggregateSqDist
     (fst (repeatFrame w h cfg hand targets (S k) (positions, velocities)))
     targets (particleCount cfg)
   < aggregateSqDist
       (fst (repeatFrame w h cfg hand targets k (positions, velocities)))
       targets (particleCount cfg))%R.
Proof.
  intros Hhand Hd Hrs Hmu Hover Lp Lv Hrest Hoff.
  destruct (repeat_invariant w h mu cfg hand targets Hhand Hd Hrs Hmu Hover
              positions velocities k Lp Lv Hrest Hoff)
    as (Lp' & Lv' & Hs & [i [Hi Hpos]]).
  change (repeatFrame w h cfg hand targets (S k) (positions, velocities))
    with (simulate w h cfg hand targets
            (repeatFrame w h cfg hand targets k (positions, velocities))).
  destruct (frame_step w h mu cfg hand targets Hhand Hd Hrs Hmu Hover _ Lp' Lv' Hs)
    as [_ Hstep].
  rewrite !aggregate_total.
  apply total_lt.
  - intros j Hj. apply in_seq in Hj. apply Hstep. lia.
  - exists i. split; [apply in_seq; lia|]. by apply (Hstep i Hi).
Qed.

Lemma repeatFrame_succ {num : Type} `{Number num} (w h : num)
    (cfg : ParticleSettings num) (hand : HandData.t num) (targets : list num)
    (k : nat) (st : list num * list num) :
  repeatFrame w h cfg hand targets (S k) st
  = simulate w h cfg hand targets (repeatFrame w h cfg hand targets k st).
Proof. done. Qed.

(** One frame of a single particle that moves along the x axis toward the
    origin, in exact arithmetic. *)
Lemma one_particle_state (e e' v v' : R) :
  e = e' -> v = v' ->
  ([e; 0%R; 0%R], [v; 0%R; 0%R]) = ([e'; 0%R; 0%R], [v'; 0%R; 0%R]).
Proof. by intros -> ->. Qed.

Lemma one_particle_buffers (a b c d e f a' b' c' d' e' f' : R) :
  a = a' -> b = b' -> c = c' -> d = d' -> e = e' -> f = f' ->
  ([a; b; c], [d; e; f]) = ([a'; b'; c'], [d'; e'; f']).
Proof. by intros -> -> -> -> -> ->. Qed.

Lemma one_particle_frame (w h : R) (cfg : ParticleSettings R)
    (hand : HandData.t R) (e v : R) :
  HandData.detected hand = false ->
  particleCount cfg = 1 ->
  simulate w h cfg hand [0%R; 0%R; 0%R] ([e; 0%R; 0%R], [v; 0%R; 0%R])
  = ([(e + (v + (0 - e) * returnSpeed cfg) * damping cfg)%R; 0%R; 0%R],
     [((v + (0 - e) * returnSpeed cfg) * damping cfg)%R; 0%R; 0%R]).
Proof.
  intros Hhand Hcount.
  destruct cfg as [n fs r d rs], hand as [hx hy g det]. cbn in Hhand, Hcount. subst.
  cbv [simulate particleCount seq foldl stepParticle particleStep
       handInteraction HandData.detected load store get put lookup
       list_lookup insert list_insert default from_option Datatypes.id
       fround exact damping returnSpeed forceStrength interactionRadius
       Point.x Point.y Point.z fst snd Nat.mul Nat.add
       nadd nsub nmul ndiv nneg ofZ lit HandData.x HandData.y].
  apply one_particle_buffers; lra.
Qed.

(** The overshoot of the default settings is not a matter of rounding: in
    exact arithmetic the same particle is at about 0.00247 on the far side of
    its target after eight frames and at about 0.16545 after nine. *)
Lemma default_settings_overshoot_exact :
  let cfg := mkSettings 1 (25 / 10)%R 25%R (96 / 100)%R (4 / 100)%R in
  let hand := HandData.mk (1 / 2)%R (1 / 2)%R HandGesture.None false in
  let targets := [0%R; 0%R; 0%R] in
  let st := ([1%R; 0%R; 0%R], [0%R; 0%R; 0%R]) in
  (aggregateSqDist (fst (repeatFrame 160%R 92%R cfg hand targets 8 st)) targets 1
   < aggregateSqDist (fst (repeatFrame 160%R 92%R cfg hand targets 9 st)) targets 1)%R.
Proof.
  intros cfg hand targets st.
  assert (forall e v : R,
            simulate 160%R 92%R cfg hand targets ([e; 0%R; 0%R], [v; 0%R; 0%R])
            = ([(e + (v + (0 - e) * (4 / 100)) * (96 / 100))%R; 0%R; 0%R],
               [((v + (0 - e) * (4 / 100)) * (96 / 100))%R; 0%R; 0%R])) as Frame.
  { intros e v. by apply (one_particle_frame 160%R 92%R cfg hand e v). }
  assert (repeatFrame 160%R 92%R cfg hand targets 1 st
          = ([(601 / 625)%R; 0%R; 0%R], [(- (24 / 625))%R; 0%R; 0%R])) as S1.
  { rewrite repeatFrame_succ. unfold repeatFrame, st. cbn [Nat.iter nat_rect].
    rewrite Frame. apply one_particle_state; lra. }
  assert (repeatFrame 160%R 92%R cfg hand targets 2 st
          = ([(346801 / 390625)%R; 0%R; 0%R], [(- (28824 / 390625))%R; 0%R; 0%R])) as S2.
  { rewrite repeatFrame_succ, S1, Frame. apply one_particle_state; lra. }
  assert (repeatFrame 160%R 92%R cfg hand targets 3 st
          = ([(191133001 / 244140625)%R; 0%R; 0%R], [(- (25617624 / 244140625))%R; 0%R; 0%R])) as S3.
  { rewrite repeatFrame_succ, S2, Frame. apply one_particle_state; lra. }
  assert (repeatFrame 160%R 92%R cfg hand targets 4 st
          = ([(99500359201 / 152587890625)%R; 0%R; 0%R], [(- (19957766424 / 152587890625))%R; 0%R; 0%R])) as S4.
  { rewrite repeatFrame_succ, S3, Frame. apply one_particle_state; lra. }
  assert (repeatFrame 160%R 92%R cfg hand targets 5 st
          = ([(47825056025401 / 95367431640625)%R; 0%R; 0%R], [(- (14362668475224 / 95367431640625))%R; 0%R; 0%R])) as S5.
  { rewrite repeatFrame_succ, S4, Frame. apply one_particle_state; lra. }
  assert (repeatFrame 160%R 92%R cfg hand targets 6 st
          = ([(20125257586131601 / 59604644775390625)%R; 0%R; 0%R], [(- (9765402429744024 / 59604644775390625))%R; 0%R; 0%R])) as S6.
  { rewrite repeatFrame_succ, S5, Frame. apply one_particle_state; lra. }
  assert (repeatFrame 160%R 92%R cfg hand targets 7 st
          = ([(6236038351418677801 / 37252902984619140625)%R; 0%R; 0%R], [(- (6342247639913572824 / 37252902984619140625))%R; 0%R; 0%R])) as S7.
  { rewrite repeatFrame_succ, S6, Frame. apply one_particle_state; lra. }
  assert (repeatFrame 160%R 92%R cfg hand targets 8 st
          = ([(- (57489534745518335999 / 23283064365386962890625))%R; 0%R; 0%R], [(- (3955013504382191961624 / 23283064365386962890625))%R; 0%R; 0%R])) as S8.
  { rewrite repeatFrame_succ, S7, Frame. apply one_particle_state; lra. }
  assert (repeatFrame 160%R 92%R cfg hand targets 9 st
          = ([(- (2407559313011371696909799 / 14551915228366851806640625))%R; 0%R; 0%R], [(- (2371628353795422736910424 / 14551915228366851806640625))%R; 0%R; 0%R])) as S9.
  { rewrite repeatFrame_succ, S8, Frame. apply one_particle_state; lra. }
  rewrite S8, S9. clear. subst targets.
  cbv [aggregateSqDist seq foldr squaredDistance vsub load get lookup list_lookup
       default from_option Datatypes.id fst Nat.mul Nat.add
       Point.x Point.y Point.z nadd nsub nmul ofZ exact].
  lra.
Qed.

Lemma overdamped_return_converges_witness :
  let cfg := mkSettings 1 (25 / 10)%R 25%R (96 / 100)%R (4 / 10000)%R in
  let hand := HandData.mk (1 / 2)%R (1 / 2)%R HandGesture.None false in
  let targets := [0%R; 0%R; 0%R] in
  let st := ([1%R; 0%R; 0%R], [0%R; 0%R; 0%R]) in
  (aggregateSqDist (fst (repeatFrame 160%R 92%R cfg hand targets 3 st)) targets 1
   < aggregateSqDist (fst (repeatFrame 160%R 92%R cfg hand targets 2 st)) targets 1)%R.
Proof.
  apply (overdamped_return_converges 160%R 92%R (2 / 100)%R
           (mkSettings 1 (25 / 10)%R 25%R (96 / 100)%R (4 / 10000)%R)
           (HandData.mk (1 / 2)%R (1 / 2)%R HandGesture.None false)
           [0%R; 0%R; 0%R] [1%R; 0%R; 0%R] [0%R; 0%R; 0%R] 2).
  - reflexivity.
  - simpl. lra.
  - simpl. lra.
  - lra.
  - simpl. lra.
  - simpl. lia.
  - simpl. lia.
  - intros [|i] Hi; [reflexivity|simpl in Hi; lia].
  - exists 0%nat. split; [simpl; lia|].
    intros E. injection E as E1. cbn in E1. lra.
Defined.

(** In IEEE arithmetic the strict decrease cannot go on forever, whatever
    the settings: one single-precision step away from its target, an
    overdamped particle keeps its position, because the move rounds to
    nothing when it is stored. *)
Example ieee_stall :
  let cfg := mkSettings 1 (lit 25 10) (ofZ 25) (lit 96 100) (lit 4 10000) in
  let tiny := S754_finite false 1 (-149) in
  let targets := [ofZ 0; ofZ 0; ofZ 0] in
  let st := ([Ieee.of_single tiny; ofZ 0; ofZ 0], [ofZ 0; ofZ 0; ofZ 0]) in
  fst (simulate Demo.width Demo.height cfg Demo.noHand targets st) = fst st.
Proof. vm_compute. reflexivity. Qed.

(** Nor does the distance never grow.  With damping 0.96 and returnSpeed
    0.0004, one particle starting at rest at distance 1 from its target 0
    has passed the target after 6350 frames, at - 2 ^ -148 with a stored
    velocity of - 6 * 2 ^ -148; the damped velocity rounds back to the same
    six single-precision steps, so frame 6351 carries the particle away from
    its target and the aggregate squared distance grows. *)
Example ieee_drift :
  let targets := [ofZ 0; ofZ 0; ofZ 0] in
  let st := ([ofZ 1; ofZ 0; ofZ 0], [ofZ 0; ofZ 0; ofZ 0]) in
  let after k :=
    repeatFrame Demo.width Demo.height slowSettings Demo.noHand targets k st in
  after (Z.to_nat 6350)
  = ([S754_finite true 4503599627370496 (-200); ofZ 0; ofZ 0],
     [S754_finite true 6755399441055744 (-198); ofZ 0; ofZ 0]) /\
  fst (after (Z.to_nat 6351))
  = [S754_finite true 7881299347898368 (-198); ofZ 0; ofZ 0] /\
  (aggregateSqDist (fst (after (Z.to_nat 6350))) targets 1
   <? aggregateSqDist (fst (after (Z.to_nat 6351))) targets 1)%js = true.
Proof. vm_compute. repeat split. Qed.

(** A gesture of None on a particle that sits on the hand point: every
    value stays finite, the frame is the frame without a hand. *)
Example gesture_none_at_hand_point :
  let st := ([ofZ 0; ofZ 0; ofZ 0; ofZ 4; ofZ 0; ofZ 3], Demo.twoVelocities) in
  simulate Demo.width Demo.height (Demo.settings 2)
           (Demo.centred HandGesture.None) Demo.twoTargets st
  = simulate Demo.width Demo.height (Demo.settings 2) Demo.noHand
             Demo.twoTargets st /\
  forallb Ieee.is_finite
    (snd (simulate Demo.width Demo.height (Demo.settings 2)
                   (Demo.centred HandGesture.None) Demo.twoTargets st)) = true.
Proof. vm_compute. split; reflexivity. Qed.

(** * Further properties *)


(** ** Random draws of the generator *)

Section DrawFacts.
Context {num : Type} `{Number num} `{Libm num}.

Lemma storeAll_ext (pt pt' : nat -> Point.t num) (a : list num) start n :
  (forall i, start <= i < start + n -> pt i = pt' i) ->
  storeAll pt a start n = storeAll pt' a start n.
Proof.
  induction n as [|n IH]; intros E; [done|].
  rewrite !storeAll_succ, IH by (intros i Hi; apply E; lia).
  rewrite (E (start + n)) by lia. done.
Qed.

Lemma shapePoint_ext (rng rng' : nat -> num) type count i k :
  sameDraws rng rng' k (draws type) ->
  shapePoint rng type count i k = shapePoint rng' type count i k.
Proof.
  intros E. unfold sameDraws in E.
  destruct type;
    cbn [shapePoint getPointOnSphereSurface random draws] in *;
    rewrite ?(E k), ?(E (S k)), ?(E (S (S k))) by lia; done.
Qed.

Lemma pointAt_ext (rng rng' : nat -> num) type count k0 i :
  i < count ->
  sameDraws rng rng' k0 (count * draws type) ->
  pointAt rng type count k0 i = pointAt rng' type count k0 i.
Proof.
  intros Hi E. unfold pointAt. f_equal. apply shapePoint_ext.
  intros k Hk. apply E. nia.
Qed.
End DrawFacts.

(** X6.  [generateShapePositions(type, count)] makes exactly
    [count * draws type] calls of [Math.random] (2 per Sphere point, 3 per
    Cube and Heart point, and 1 per Spiral point although the value drawn is
    discarded), and its result depends on no other draw: two random sources
    that agree on those draws give the same buffer. *)
Theorem generation_uses_its_draws {num : Type} `{Number num} `{Libm num}
    (rng rng' : nat -> num) (type : ShapeType) (count k0 : nat) :
  sameDraws rng rng' k0 (count * draws type) ->
  generateShapePositionsFrom rng type count k0
  = generateShapePositionsFrom rng' type count k0 /\
  snd (generateShapePositionsFrom rng type count k0) = k0 + count * draws type.
Proof.
  intros E. rewrite !generate_eq. split; [|done].
  f_equal. f_equal. apply storeAll_ext.
  intros i Hi. apply pointAt_ext; [lia|done].
Qed.

Lemma generation_uses_its_draws_witness :
  let rng := fun k : nat => if (k <? 6)%nat then (1 / 4)%R else 0%R in
  let rng' := fun k : nat => if (k <? 6)%nat then (1 / 4)%R else (1 / 2)%R in
  generateShapePositionsFrom rng Cube 2 0 = generateShapePositionsFrom rng' Cube 2 0 /\
  snd (generateShapePositionsFrom rng Cube 2 0) = 0 + 2 * draws Cube.
Proof.
  apply (generation_uses_its_draws
           (fun k : nat => if (k <? 6)%nat then (1 / 4)%R else 0%R)
           (fun k : nat => if (k <? 6)%nat then (1 / 4)%R else (1 / 2)%R)
           Cube 2 0).
  intros k Hk. simpl in Hk.
  destruct (Nat.ltb_spec k 6); [reflexivity|lia].
Defined.



(** ** The hand tracker *)

Section TrackerFacts.
Context {num : Type} `{Number num}.

Lemma detectGesture_some (landmarks : list (Landmark.t num))
    (wrist base t8 t12 t16 t20 : Landmark.t num) :
  landmarks !! 0%nat = Some wrist -> landmarks !! 9%nat = Some base ->
  landmarks !! 8%nat = Some t8 -> landmarks !! 12%nat = Some t12 ->
  landmarks !! 16%nat = Some t16 -> landmarks !! 20%nat = Some t20 ->
  detectGesture landmarks = Some (classify wrist base [t8; t12; t16; t20]).
Proof.
  intros E0 E9 E8 E12 E16 E20.
  unfold detectGesture, fingers. rewrite E0, E9. cbn [mbind option_bind foldl].
  rewrite E8, E12, E16, E20. cbn [mbind option_bind].
  fold (landmarkSqDist wrist base).
  rewrite !countFolded_folded. unfold classify. cbn [List.filter].
  destruct (folded wrist base t8), (folded wrist base t12),
    (folded wrist base t16), (folded wrist base t20); done.
Qed.

Lemma classify_not_none (wrist base : Landmark.t num) tips :
  classify wrist base tips <> HandGesture.None.
Proof. unfold classify. by destruct (_ <=? _)%nat. Qed.

Lemma detectGesture_short (landmarks : list (Landmark.t num)) :
  length landmarks <= 20 -> detectGesture landmarks = None.
Proof.
  intros L. assert (landmarks !! 20%nat = None) as E20
    by (apply lookup_ge_None_2; lia).
  unfold detectGesture, fingers.
  destruct (landmarks !! 0%nat) as [wrist|]; [|done].
  destruct (landmarks !! 9%nat) as [base|]; [|done].
  cbn [mbind option_bind foldl].
  destruct (landmarks !! 8%nat) as [t8|]; [|done].
  destruct (landmarks !! 12%nat) as [t12|]; [|done].
  destruct (landmarks !! 16%nat) as [t16|]; [|done].
  rewrite E20. done.
Qed.

Lemma detectGesture_long (landmarks : list (Landmark.t num)) :
  20 < length landmarks ->
  exists wrist base t8 t12 t16 t20,
    landmarks !! 0%nat = Some wrist /\ landmarks !! 9%nat = Some base /\
    detectGesture landmarks = Some (classify wrist base [t8; t12; t16; t20]).
Proof.
  intros L.
  destruct (lookup_lt_is_Some_2 landmarks 0) as [wrist E0]; [lia|].
  destruct (lookup_lt_is_Some_2 landmarks 9) as [base E9]; [lia|].
  destruct (lookup_lt_is_Some_2 landmarks 8) as [t8 E8]; [lia|].
  destruct (lookup_lt_is_Some_2 landmarks 12) as [t12 E12]; [lia|].
  destruct (lookup_lt_is_Some_2 landmarks 16) as [t16 E16]; [lia|].
  destruct (lookup_lt_is_Some_2 landmarks 20) as [t20 E20]; [lia|].
  exists wrist, base, t8, t12, t16, t20.
  split; [done|]. split; [done|]. by apply detectGesture_some.
Qed.
Lemma onResults_some (landmarks : list (Landmark.t num)) others
    (wrist base t8 t12 t16 t20 : Landmark.t num) :
  landmarks !! 0%nat = Some wrist -> landmarks !! 9%nat = Some base ->
  landmarks !! 8%nat = Some t8 -> landmarks !! 12%nat = Some t12 ->
  landmarks !! 16%nat = Some t16 -> landmarks !! 20%nat = Some t20 ->
  onResults (Some (landmarks :: others))
  = Some (HandData.mk (ofZ 1 - (Landmark.x wrist + Landmark.x base) / ofZ 2)%js
                      ((Landmark.y wrist + Landmark.y base) / ofZ 2)%js
                      (classify wrist base [t8; t12; t16; t20]) true).
Proof.
  intros E0 E9 E8 E12 E16 E20. unfold onResults.
  rewrite (detectGesture_some landmarks wrist base t8 t12 t16 t20) by done.
  rewrite E0, E9. done.
Qed.
End TrackerFacts.

(** X8.  [detectGesture] throws (reads a field of [undefined]) exactly
    when it is given 20 landmarks or fewer; with 21 or more it returns, and
    what it returns is Fist or Open, never None. *)
Theorem detectGesture_needs_21_landmarks {num : Type} `{Number num}
    (landmarks : list (Landmark.t num)) :
  (detectGesture landmarks = None <-> length landmarks <= 20) /\
  detectGesture landmarks <> Some HandGesture.None.
Proof.
  destruct (decide (length landmarks <= 20)) as [L|L].
  - rewrite detectGesture_short by done. split; [done|discriminate].
  - destruct (detectGesture_long landmarks) as (w & b & t8 & t12 & t16 & t20 & _ & _ & E);
      [lia|].
    rewrite E. split.
    + split; [discriminate|lia].
    + intros [= Hc]. by apply classify_not_none in Hc.
Qed.

(** X9.  What [onResults] hands to [onHandUpdate] when it does not
    throw.  Without a hand ([multiHandLandmarks] absent or empty) it is the
    neutral value: x = y = 0.5, gesture None, not detected.  With a hand,
    the first hand has at least 21 landmarks and the report is detected, has
    the gesture [detectGesture] gives (never None), the mirrored palm centre
    x = 1 - (x0 + x9) / 2 and y = (y0 + y9) / 2; further hands are ignored. *)
Theorem onResults_reports {num : Type} `{Number num}
    (multiHandLandmarks : option (list (list (Landmark.t num))))
    (hand : HandData.t num) :
  onResults multiHandLandmarks = Some hand ->
  (hand = neutralHand /\
   (multiHandLandmarks = None \/ multiHandLandmarks = Some [])) \/
  (exists landmarks rest wrist base,
     multiHandLandmarks = Some (landmarks :: rest) /\
     20 < length landmarks /\
     landmarks !! 0%nat = Some wrist /\ landmarks !! 9%nat = Some base /\
     detectGesture landmarks = Some (HandData.gesture hand) /\
     HandData.gesture hand <> HandGesture.None /\
     HandData.detected hand = true /\
     HandData.x hand
     = (ofZ 1 - (Landmark.x wrist + Landmark.x base) / ofZ 2)%js /\
     HandData.y hand = ((Landmark.y wrist + Landmark.y base) / ofZ 2)%js).
Proof.
  intros E. destruct multiHandLandmarks as [[|landmarks rest]|].
  - left. cbn in E. injection E as <-. split; [done|by right].
  - right. cbn [onResults] in E.
    destruct (decide (length landmarks <= 20)) as [L|L].
    { rewrite detectGesture_short in E by done. discriminate E. }
    destruct (detectGesture_long landmarks)
      as (w & b & t8 & t12 & t16 & t20 & E0 & E9 & Eg); [lia|].
    rewrite Eg, E0, E9 in E. cbn [mbind option_bind] in E. injection E as <-.
    exists landmarks, rest, w, b. cbn [HandData.gesture HandData.detected HandData.x HandData.y].
    split; [done|]. split; [lia|]. split; [done|]. split; [done|].
    split; [done|]. split; [apply classify_not_none|]. done.
  - left. cbn in E. injection E as <-. split; [done|by left].
Qed.

Lemma onResults_reports_witness :
  let input := Some [fistLandmarks] in
  let hand :=
    HandData.mk (ofZ 1 - (lit 5 10 + lit 5 10) / ofZ 2)%js
                ((lit 5 10 + lit 3 10) / ofZ 2)%js HandGesture.Fist true in
  (hand = neutralHand /\ (input = None \/ input = Some [])) \/
  (exists landmarks rest wrist base,
     input = Some (landmarks :: rest) /\
     20 < length landmarks /\
     landmarks !! 0%nat = Some wrist /\ landmarks !! 9%nat = Some base /\
     detectGesture landmarks = Some (HandData.gesture hand) /\
     HandData.gesture hand <> HandGesture.None /\
     HandData.detected hand = true /\
     HandData.x hand
     = (ofZ 1 - (Landmark.x wrist + Landmark.x base) / ofZ 2)%js /\
     HandData.y hand = ((Landmark.y wrist + Landmark.y base) / ofZ 2)%js).
Proof.
  apply (onResults_reports (Some [fistLandmarks])
           (HandData.mk (ofZ 1 - (lit 5 10 + lit 5 10) / ofZ 2)%js
                        ((lit 5 10 + lit 3 10) / ofZ 2)%js HandGesture.Fist true)).
  reflexivity.
Defined.

(** ** The classifier in exact arithmetic *)

(** X12.  In exact arithmetic a hand whose landmark 9 coincides with the
    wrist (reference distance 0) is classified Open wherever its fingertips
    are: no squared distance is less than 0, so no finger counts as
    folded. *)
Theorem degenerate_palm_is_open (landmarks : list (Landmark.t R))
    (wrist : Landmark.t R) :
  20 < length landmarks ->
  landmarks !! 0%nat = Some wrist -> landmarks !! 9%nat = Some wrist ->
  detectGesture landmarks = Some HandGesture.Open.
Proof.
  intros L E0 E9.
  destruct (lookup_lt_is_Some_2 landmarks 8) as [t8 E8]; [lia|].
  destruct (lookup_lt_is_Some_2 landmarks 12) as [t12 E12]; [lia|].
  destruct (lookup_lt_is_Some_2 landmarks 16) as [t16 E16]; [lia|].
  destruct (lookup_lt_is_Some_2 landmarks 20) as [t20 E20]; [lia|].
  rewrite (detectGesture_some landmarks wrist wrist t8 t12 t16 t20) by done.
  assert (forall tip, folded wrist wrist tip = false) as F.
  { intros tip. unfold folded. cbn [nlt nmul exact]. unfold Exact.ltb.
    destruct (Rlt_dec _ _) as [Hlt|]; [|done]. exfalso.
    assert (landmarkSqDist wrist wrist = 0)%R as Z
      by (unfold landmarkSqDist; cbn [nadd nsub nmul exact]; ring).
    rewrite Z in Hlt.
    assert (0 <= landmarkSqDist tip wrist)%R.
    { unfold landmarkSqDist. cbn [nadd nsub nmul exact].
      pose proof (square_pos_or_zero (Landmark.x tip - Landmark.x wrist)).
      pose proof (square_pos_or_zero (Landmark.y tip - Landmark.y wrist)). lra. }
    lra. }
  unfold classify. cbn [List.filter]. rewrite !F. done.
Qed.

Lemma degenerate_palm_is_open_witness :
  detectGesture (replicate 21 (Landmark.mk (1 / 2)%R (1 / 2)%R))
  = Some HandGesture.Open.
Proof.
  apply (degenerate_palm_is_open
           (replicate 21 (Landmark.mk (1 / 2)%R (1 / 2)%R))
           (Landmark.mk (1 / 2)%R (1 / 2)%R)).
  - simpl. lia.
  - reflexivity.
  - reflexivity.
Defined.

(** X10.  The gesture depends on the landmarks 0, 8, 9, 12, 16 and 20
    only: two hands of at least 21 landmarks that agree on these six are
    classified alike; the thumb and the finger joints play no part. *)
Theorem detectGesture_reads_six_landmarks {num : Type} `{Number num}
    (landmarks landmarks' : list (Landmark.t num)) :
  20 < length landmarks -> 20 < length landmarks' ->
  (forall i, In i [0; 8; 9; 12; 16; 20]%nat -> landmarks !! i = landmarks' !! i) ->
  detectGesture landmarks = detectGesture landmarks'.
Proof.
  intros L L' E.
  destruct (lookup_lt_is_Some_2 landmarks 0) as [wrist E0]; [lia|].
  destruct (lookup_lt_is_Some_2 landmarks 9) as [base E9]; [lia|].
  destruct (lookup_lt_is_Some_2 landmarks 8) as [t8 E8]; [lia|].
  destruct (lookup_lt_is_Some_2 landmarks 12) as [t12 E12]; [lia|].
  destruct (lookup_lt_is_Some_2 landmarks 16) as [t16 E16]; [lia|].
  destruct (lookup_lt_is_Some_2 landmarks 20) as [t20 E20]; [lia|].
  rewrite (detectGesture_some landmarks wrist base t8 t12 t16 t20) by done.
  rewrite (detectGesture_some landmarks' wrist base t8 t12 t16 t20);
    [done|rewrite <- E; [done|cbn; tauto]..].
Qed.

Lemma detectGesture_reads_six_landmarks_witness :
  detectGesture fistLandmarks
  = detectGesture (<[4%nat := Landmark.mk (ofZ 0) (ofZ 1)]> fistLandmarks).
Proof.
  apply (detectGesture_reads_six_landmarks fistLandmarks
           (<[4%nat := Landmark.mk (ofZ 0) (ofZ 1)]> fistLandmarks)).
  - simpl. lia.
  - simpl. lia.
  - intros i Hi. cbn [In] in Hi.
    destruct Hi as [<-|[<-|[<-|[<-|[<-|[<-|[]]]]]]]; reflexivity.
Defined.

(** ** Counts beyond the capacity of the buffers *)

Section CapacityFacts.
Context {num : Type} `{Number num}.

Lemma store_out_of_range (a : list num) i p :
  length a <= i * 3 -> store a i p = a.
Proof.
  intros L. unfold store, put. rewrite !list_insert_ge by (rewrite ?length_insert; lia). done.
Qed.

Lemma stepParticle_out_of_range cfg hand hx hy hz targets (ps vs : list num) i :
  length ps <= i * 3 -> length vs <= i * 3 ->
  stepParticle cfg hand hx hy hz targets (ps, vs) i = (ps, vs).
Proof.
  intros Lp Lv. rewrite stepParticle_eq. by rewrite !store_out_of_range.
Qed.

Lemma steps_out_of_range cfg hand hx hy hz targets (ps vs : list num) n k :
  length ps <= n * 3 -> length vs <= n * 3 ->
  foldl (stepParticle cfg hand hx hy hz targets) (ps, vs) (seq n k) = (ps, vs).
Proof.
  revert n. induction k as [|k IH]; intros n Lp Lv; [done|].
  cbn [seq foldl]. rewrite stepParticle_out_of_range by done.
  apply IH; lia.
Qed.

Lemma simulate_withCount w h cfg n hand targets (st : list num * list num) :
  simulate w h (withCount cfg n) hand targets st
  = loop cfg hand (Point.x (handPoint w h hand)) (Point.y (handPoint w h hand))
         (Point.z (handPoint w h hand)) targets n st.
Proof. done. Qed.
End CapacityFacts.

(** X14.  A frame whose particle count exceeds the capacity of the
    buffers behaves as a frame with the count at capacity: the reads beyond
    the end yield [undefined], the writes are dropped, and the buffers are
    those of the smaller count. *)
Theorem count_beyond_capacity {num : Type} `{Number num}
    (w h : num) (cfg : ParticleSettings num) (hand : HandData.t num)
    (targets positions velocities : list num) (n m : nat) :
  length positions <= n * 3 -> length velocities <= n * 3 -> n <= m ->
  simulate w h (withCount cfg m) hand targets (positions, velocities)
  = simulate w h (withCount cfg n) hand targets (positions, velocities).
Proof.
  intros Lp Lv Hnm. rewrite !simulate_withCount.
  set (hp := handPoint w h hand).
  replace m with (n + (m - n)) by lia.
  unfold loop at 1. rewrite seq_app, foldl_app. cbn [Nat.add].
  fold (loop cfg hand (Point.x hp) (Point.y hp) (Point.z hp) targets n
          (positions, velocities)).
  destruct (loop_length cfg hand (Point.x hp) (Point.y hp) (Point.z hp) targets n
              (positions, velocities)) as [Lp' Lv'].
  destruct (loop cfg hand (Point.x hp) (Point.y hp) (Point.z hp) targets n
              (positions, velocities)) as [ps vs]. cbn [fst snd] in *.
  apply steps_out_of_range; lia.
Qed.

Lemma count_beyond_capacity_witness :
  simulate (ofZ 160) (ofZ 92) (withCount (Demo.settings 0) 5) (Demo.centred HandGesture.Open)
           Demo.twoTargets (Demo.twoPositions, Demo.twoVelocities)
  = simulate (ofZ 160) (ofZ 92) (withCount (Demo.settings 0) 2) (Demo.centred HandGesture.Open)
           Demo.twoTargets (Demo.twoPositions, Demo.twoVelocities).
Proof.
  apply (count_beyond_capacity (ofZ 160) (ofZ 92) (Demo.settings 0)
           (Demo.centred HandGesture.Open) Demo.twoTargets
           Demo.twoPositions Demo.twoVelocities 2 5); vm_compute; lia.
Defined.

(** ** Not-a-number in IEEE arithmetic *)

Section NanFacts.
Local Open Scope js_scope.

Lemma nan_add (y : spec_float) : (S754_nan + y)%js = S754_nan.
Proof. done. Qed.

Lemma is_nan_eq (x : spec_float) : Ieee.is_nan x = true -> x = S754_nan.
Proof. by destruct x. Qed.

Lemma get_put_nan (a : list spec_float) k j v :
  Ieee.is_nan (get a k) = true ->
  (j = k -> v = S754_nan) ->
  Ieee.is_nan (get (put a j v) k) = true.
Proof.
  intros Hk Hv. destruct (decide (j = k)) as [->|Hne].
  - rewrite Hv by done. unfold get, put.
    destruct (decide (k < length a)) as [Hlt|Hge].
    + by rewrite list_lookup_insert_eq.
    + rewrite list_insert_ge by lia. done.
  - by rewrite get_put_ne.
Qed.

Lemma stepParticle_nan cfg hand hx hy hz targets (ps vs : list spec_float) i k :
  Ieee.is_nan (get ps k) = true ->
  Ieee.is_nan (get (fst (stepParticle cfg hand hx hy hz targets (ps, vs) i)) k)
  = true.
Proof.
  intros Hk. rewrite stepParticle_eq. cbn [fst].
  unfold slotStep, particleStep.
  destruct (handInteraction _ _ _ _ _ _ _ _ _ _ _ _) as [[vx vy] vz].
  cbn [fst]. unfold store. cbn [Point.x Point.y Point.z load].
  repeat apply get_put_nan; [done|intros E..]; subst k;
    apply is_nan_eq in Hk; rewrite Hk; apply nan_add.
Qed.

Lemma simulate_nan w h cfg hand targets (st : list spec_float * list spec_float) k :
  Ieee.is_nan (get (fst st) k) = true ->
  Ieee.is_nan (get (fst (simulate w h cfg hand targets st)) k) = true.
Proof.
  rewrite simulate_loop. generalize (particleCount cfg) as n.
  intros n Hk. induction n as [|n IH]; [done|].
  rewrite loop_succ.
  destruct (loop _ _ _ _ _ _ n st) as [ps vs].
  by apply stepParticle_nan.
Qed.
End NanFacts.

(** X15.  In IEEE arithmetic a position element that is NaN stays NaN
    through any sequence of frames, whatever the settings, hands, targets
    and counts of the frames: an active particle computes its new position
    from the old one, an inactive one is not written. *)
Theorem nan_is_permanent (frames : list Frame)
    (positions velocities : list spec_float) (k : nat) :
  Ieee.is_nan (get positions k) = true ->
  Ieee.is_nan (get (fst (runFrames frames (positions, velocities))) k) = true.
Proof.
  intros Hk.
  change positions with (fst (positions, velocities)) in Hk.
  revert Hk. generalize (positions, velocities) as st.
  induction frames as [|f frames IH]; intros st Hk; [done|].
  cbn [runFrames foldl]. fold (runFrames frames (runFrame st f)).
  apply IH. by apply simulate_nan.
Qed.

Lemma nan_is_permanent_witness :
  Ieee.is_nan
    (get (fst (runFrames [Demo.frame 2 HandGesture.Open; Demo.frame 1 HandGesture.Fist]
                 ([S754_nan; ofZ 0; ofZ 0], Demo.twoVelocities))) 0) = true.
Proof.
  apply (nan_is_permanent
           [Demo.frame 2 HandGesture.Open; Demo.frame 1 HandGesture.Fist]
           [S754_nan; ofZ 0; ofZ 0] Demo.twoVelocities 0).
  reflexivity.
Defined.

(** ** The reach of the hand, in exact arithmetic *)




(** ** Particles at rest, in exact arithmetic *)

Section RestFacts.
Local Open Scope R_scope.

Lemma put_get (a : list R) k : put a k (get a k) = a.
Proof.
  unfold put, get. cbn [fround exact].
  destruct (a !! k) as [x|] eqn:E.
  - by apply list_insert_id.
  - apply list_insert_ge. by apply lookup_ge_None.
Qed.

Lemma store_load (a : list R) i : store a i (load a i) = a.
Proof.
  unfold store, load. cbn [Point.x Point.y Point.z].
  by rewrite !put_get.
Qed.

Lemma particleStep_at_rest cfg (hand : HandData.t R) hx hy hz (p : Point.t R) :
  inert hand = true ->
  particleStep cfg hand hx hy hz p p (Point.mk 0 0 0) = (p, Point.mk 0 0 0).
Proof.
  intros Hi. unfold particleStep. rewrite handInteraction_inert by done.
  destruct p as [px py pz]. cbn [Point.x Point.y Point.z nadd nsub nmul exact].
  f_equal; f_equal; ring.
Qed.

Lemma stepParticle_at_rest cfg (hand : HandData.t R) hx hy hz (T vs : list R) m i :
  inert hand = true ->
  length T = (m * 3)%nat -> length vs = (m * 3)%nat ->
  (forall k, (k < m * 3)%nat -> vs !! k = Some 0) ->
  stepParticle cfg hand hx hy hz T (T, vs) i = (T, vs).
Proof.
  intros Hi LT Lv Hz.
  destruct (decide (i < m)%nat) as [Hlt|Hge].
  - unfold stepParticle.
    assert (load vs i = Point.mk 0 0 0) as Ev.
    { unfold load. f_equal; apply get_lookup, Hz; lia. }
    rewrite Ev, particleStep_at_rest by done.
    rewrite store_load. f_equal.
    rewrite <- Ev. apply store_load.
  - apply stepParticle_out_of_range; lia.
Qed.

Lemma simulate_at_rest w h cfg (hand : HandData.t R) (T vs : list R) m :
  inert hand = true ->
  length T = (m * 3)%nat -> length vs = (m * 3)%nat ->
  (forall k, (k < m * 3)%nat -> vs !! k = Some 0) ->
  simulate w h cfg hand T (T, vs) = (T, vs).
Proof.
  intros Hi LT Lv Hz. rewrite simulate_loop.
  generalize (particleCount cfg) as n. intros n.
  induction n as [|n IH]; [done|].
  rewrite loop_succ, IH. by apply (stepParticle_at_rest _ _ _ _ _ _ _ m).
Qed.
End RestFacts.


Section MountFacts.
Context {num : Type} `{Number num}.

Lemma length_initial_velocities :
  length (velocities (initialCanvas (num:=num))) = MAX_PARTICLES * 3.
Proof. unfold initialCanvas. cbn [velocities]. apply length_newFloat32Array. Qed.

Lemma lookup_initial_velocities j :
  j < MAX_PARTICLES * 3 ->
  velocities (initialCanvas (num:=num)) !! j = Some (ofZ 0).
Proof.
  intros Hj. unfold initialCanvas. cbn [velocities].
  by apply lookup_newFloat32Array.
Qed.
End MountFacts.

Lemma simulate_mounted_at_rest (rng : nat -> R) (shape : ShapeType) (k : nat)
    (cfg : ParticleSettings R) (hand : HandData.t R) (w h : R) :
  inert hand = true ->
  simulate w h cfg hand (fst (generateShapePositionsFrom rng shape MAX_PARTICLES k))
    (fst (generateShapePositionsFrom rng shape MAX_PARTICLES k),
     velocities initialCanvas)
  = (fst (generateShapePositionsFrom rng shape MAX_PARTICLES k),
     velocities initialCanvas).
Proof.
  intros Hi.
  apply (simulate_at_rest w h cfg hand _ _ MAX_PARTICLES Hi).
  - apply length_generate.
  - apply length_initial_velocities.
  - intros j Hj. rewrite lookup_initial_velocities by exact Hj. reflexivity.
Qed.

Lemma mountEffect_canvas (rng : nat -> R) (shape : ShapeType) (k k' : nat)
    (c : Canvas R) :
  mountEffect rng shape initialCanvas k = (Some c, k') ->
  c = mkCanvas (Some (fst (generateShapePositionsFrom rng shape MAX_PARTICLES k)))
        (velocities initialCanvas)
        (fst (generateShapePositionsFrom rng shape MAX_PARTICLES k)).
Proof. rewrite mountEffect_eq. intros E. congruence. Qed.

Lemma animate_fixed_point (camera : Camera R) (cfg : ParticleSettings R)
    (hand : HandData.t R) (T vs : list R) :
  (forall w h, simulate w h cfg hand T (T, vs) = (T, vs)) ->
  animate camera cfg hand (mkCanvas (Some T) vs T) = mkCanvas (Some T) vs T.
Proof.
  intros Es.
  pose proof (animate_simulate camera cfg hand T vs T) as Ea.
  cbv zeta in Ea. rewrite Ea. rewrite Es. reflexivity.
Qed.

(** X18.  In exact arithmetic the canvas left by the mount effect is a
    fixed point of [animate] as long as no hand acts (none detected, or
    gesture None): positions equal the targets and velocities are zero, so a
    frame changes no buffer, for any camera, any settings and any particle
    count. *)
Theorem mounted_canvas_is_at_rest (rng : nat -> R) (shape : ShapeType) (k k' : nat)
    (camera : Camera R) (cfg : ParticleSettings R) (hand : HandData.t R)
    (c : Canvas R) :
  mountEffect rng shape initialCanvas k = (Some c, k') ->
  inert hand = true ->
  animate camera cfg hand c = c.
Proof.
  intros E Hi. rewrite (mountEffect_canvas rng shape k k' c E).
  apply animate_fixed_point. intros w h.
  apply simulate_mounted_at_rest. exact Hi.
Qed.

Lemma mounted_canvas_is_at_rest_witness :
  let c := mkCanvas
             (Some (fst (generateShapePositionsFrom (fun _ => (1 / 2)%R) Cube
                           MAX_PARTICLES 0)))
             (velocities initialCanvas)
             (fst (generateShapePositionsFrom (fun _ => (1 / 2)%R) Cube
                     MAX_PARTICLES 0)) in
  animate (mkCamera 75%R 2%R) (mkSettings 3 (5 / 2) 25 (24 / 25) (1 / 25))%R
          neutralHand c = c.
Proof.
  apply (mounted_canvas_is_at_rest (fun _ => (1 / 2)%R) Cube 0
           (snd (generateShapePositionsFrom (fun _ => (1 / 2)%R) Cube MAX_PARTICLES 0))
           (mkCamera 75%R 2%R)
           (mkSettings 3 (5 / 2) 25 (24 / 25) (1 / 25))%R neutralHand).
  - apply mountEffect_eq.
  - reflexivity.
Defined.

(** ** From the camera picture to the scene, in exact arithmetic *)

Lemma viewHeight_pos (camera : Camera R) :
  (0 < fov camera < 180)%R -> (0 < viewHeight camera)%R.
Proof.
  intros [Hlo Hhi]. unfold viewHeight.
  cbn [nmul ndiv ofZ Math_tan Math_PI exact exact_libm].
  pose proof PI_RGT_0 as Hpi.
  assert (0 < tan (fov camera * (PI / 180) / 2))%R.
  { apply tan_gt_0; nra. }
  nra.
Qed.

(** X13.  From the tracker to the scene, in exact arithmetic.  For a camera
    with 0 < fov < 180 degrees and a positive aspect ratio, [animate] runs
    the particle loop with positive view extents W and H; when the wrist and
    landmark 9 lie in the unit square of the picture, the hand reported by
    [onResults] is detected and is mapped to a point of the plane z = 0
    inside the view rectangle: |x| <= W / 2 and |y| <= H / 2. *)
Theorem tracked_hand_in_view (camera : Camera R)
    (landmarks : list (Landmark.t R)) (others : list (list (Landmark.t R)))
    (l0 l9 : Landmark.t R) (hand : HandData.t R) :
  (0 < fov camera < 180)%R -> (0 < aspect camera)%R ->
  landmarks !! 0%nat = Some l0 -> landmarks !! 9%nat = Some l9 ->
  (0 <= Landmark.x l0 <= 1)%R -> (0 <= Landmark.y l0 <= 1)%R ->
  (0 <= Landmark.x l9 <= 1)%R -> (0 <= Landmark.y l9 <= 1)%R ->
  onResults (Some (landmarks :: others)) = Some hand ->
  let W := viewWidth camera in
  let H := viewHeight camera in
  let hp := handPoint W H hand in
  (forall cfg positions vels targets,
     animate camera cfg hand (mkCanvas (Some positions) vels targets)
     = mkCanvas (Some (fst (simulate W H cfg hand targets (positions, vels))))
                (snd (simulate W H cfg hand targets (positions, vels)))
                targets) /\
  HandData.detected hand = true /\
  (0 < W)%R /\ (0 < H)%R /\
  (- (W / 2) <= Point.x hp <= W / 2)%R /\
  (- (H / 2) <= Point.y hp <= H / 2)%R /\
  Point.z hp = 0%R.
Proof.
  intros Hfov Hasp E0 E9 Hx0 Hy0 Hx9 Hy9 Eh W H hp.
  pose proof (viewHeight_pos camera Hfov) as HH. fold H in HH.
  assert (0 < W)%R as HW.
  { unfold W, viewWidth. fold H. cbn [nmul exact]. nra. }
  split; [|split; [|split; [|split; [|split; [|split]]]]]; try done.
  - intros cfg positions vels targets.
    apply (animate_simulate camera cfg hand positions vels targets).
  - unfold onResults in Eh. destruct (detectGesture landmarks); [|done].
    rewrite E0, E9 in Eh. cbn in Eh. by injection Eh as <-.
  - unfold onResults in Eh. destruct (detectGesture landmarks); [|done].
    rewrite E0, E9 in Eh. cbn [mbind option_bind] in Eh. injection Eh as <-.
    unfold hp, handPoint, lit.
    cbn [Point.x HandData.x nadd nsub nmul ndiv ofZ exact]. nra.
  - unfold onResults in Eh. destruct (detectGesture landmarks); [|done].
    rewrite E0, E9 in Eh. cbn [mbind option_bind] in Eh. injection Eh as <-.
    unfold hp, handPoint, lit.
    cbn [Point.y HandData.y nadd nsub nmul ndiv nneg ofZ exact]. nra.
Qed.

Lemma tracked_hand_in_view_witness :
  let camera := mkCamera 75%R 2%R in
  let l0 := Landmark.mk (1 / 2)%R (1 / 2)%R in
  let l9 := Landmark.mk (1 / 2)%R (3 / 10)%R in
  let tip := Landmark.mk (1 / 2)%R (1 / 10)%R in
  let hand := HandData.mk (1 - (1 / 2 + 1 / 2) / 2)%R ((1 / 2 + 3 / 10) / 2)%R
                          (classify l0 l9 [tip; tip; tip; tip]) true in
  let W := viewWidth camera in
  let H := viewHeight camera in
  let hp := handPoint W H hand in
  (forall cfg positions vels targets,
     animate camera cfg hand (mkCanvas (Some positions) vels targets)
     = mkCanvas (Some (fst (simulate W H cfg hand targets (positions, vels))))
                (snd (simulate W H cfg hand targets (positions, vels)))
                targets) /\
  HandData.detected hand = true /\
  (0 < W)%R /\ (0 < H)%R /\
  (- (W / 2) <= Point.x hp <= W / 2)%R /\
  (- (H / 2) <= Point.y hp <= H / 2)%R /\
  Point.z hp = 0%R.
Proof.
  apply (tracked_hand_in_view (mkCamera 75%R 2%R) openLandmarks []
           (Landmark.mk (1 / 2)%R (1 / 2)%R) (Landmark.mk (1 / 2)%R (3 / 10)%R)
           (HandData.mk (1 - (1 / 2 + 1 / 2) / 2)%R ((1 / 2 + 3 / 10) / 2)%R
              (classify (Landmark.mk (1 / 2)%R (1 / 2)%R)
                        (Landmark.mk (1 / 2)%R (3 / 10)%R)
                        (replicate 4 (Landmark.mk (1 / 2)%R (1 / 10)%R))) true)).
  - simpl. lra.
  - simpl. lra.
  - reflexivity.
  - reflexivity.
  - simpl. lra.
  - simpl. lra.
  - simpl. lra.
  - simpl. lra.
  - rewrite (onResults_some openLandmarks []
             (Landmark.mk (1 / 2)%R (1 / 2)%R) (Landmark.mk (1 / 2)%R (3 / 10)%R)
             (Landmark.mk (1 / 2)%R (1 / 10)%R) (Landmark.mk (1 / 2)%R (1 / 10)%R)
             (Landmark.mk (1 / 2)%R (1 / 10)%R) (Landmark.mk (1 / 2)%R (1 / 10)%R));
      reflexivity.
Defined.
